(** * binarypuzzle: a shallow embedding of [BinaryPuzzle] and its solver

    The Python class [BinaryPuzzle] of [src/binarypuzzle/__init__.py] is
    embedded as pure functions in an exception monad.  The z3 terms the
    method [solve] hands to the SMT solver are embedded as a small syntax
    ([ArithRef], [BoolRef]) with its integer semantics; the external call
    [Solver.check]/[Solver.model] is a parameter of the development. *)

From Stdlib Require Import ZArith List Bool Arith Lia.
Import ListNotations.

Set Warnings "-register-all".

(** ** Exceptions and the exception monad *)

Module Py.

(** The exceptions the code can raise.  [InvalidPuzzleError] and
    [UnsolvablePuzzleError] are the two classes imported from
    [.exceptions]; the other three are the builtin errors of list
    indexing, dict lookup and tuple unpacking. *)
Inductive exception : Type :=
| InvalidPuzzleError
| UnsolvablePuzzleError
| IndexError
| KeyError
| ValueError.

Inductive result (A : Type) : Type :=
| Ok (a : A)
| Raise (e : exception).

Arguments Ok {A} a.
Arguments Raise {A} e.

Definition bind {A B : Type} (r : result A) (k : A -> result B) : result B :=
  match r with
  | Ok a => k a
  | Raise e => Raise e
  end.

Notation "x <- r ;; k" := (bind r (fun x => k))
  (at level 61, r at next level, right associativity).

(** A list comprehension whose body may raise. *)
Fixpoint mapM {A B : Type} (f : A -> result B) (l : list A) : result (list B) :=
  match l with
  | [] => Ok []
  | a :: l' => b <- f a ;; bs <- mapM f l' ;; Ok (b :: bs)
  end.

(** A [for] loop threading a state, whose body may raise. *)
Fixpoint foldM {A S : Type} (f : S -> A -> result S) (l : list A) (s : S)
  : result S :=
  match l with
  | [] => Ok s
  | a :: l' => s' <- f s a ;; foldM f l' s'
  end.

(** [l[i]] for a non-negative index. *)
Definition getitem {A : Type} (l : list A) (i : nat) : result A :=
  match nth_error l i with
  | Some a => Ok a
  | None => Raise IndexError
  end.

(** [l[i:j]] for non-negative bounds. *)
Definition slice {A : Type} (l : list A) (i j : nat) : list A :=
  firstn (j - i) (skipn i l).

(** [a, b, c = l]. *)
Definition unpack3 {A : Type} (l : list A) : result (A * A * A) :=
  match l with
  | [a; b; c] => Ok (a, b, c)
  | _ => Raise ValueError
  end.

(** [range(n)]. *)
Definition range (n : nat) : list nat := seq 0 n.

End Py.

Import Py.

(** ** Positions and insertion-ordered dictionaries keyed by positions *)

Definition position : Type := (nat * nat)%type.

Definition position_eqb (p q : position) : bool :=
  (fst p =? fst q) && (snd p =? snd q).

(** A Python dict whose keys are positions: an association list in
    insertion order.  The code only builds such dicts from comprehensions
    over [positions()], whose keys are pairwise different. *)
Definition dict (V : Type) : Type := list (position * V).

Definition dict_get {V : Type} (d : dict V) (k : position) : result V :=
  match find (fun kv => position_eqb (fst kv) k) d with
  | Some kv => Ok (snd kv)
  | None => Raise KeyError
  end.

Definition dict_values {V : Type} (d : dict V) : list V := map snd d.

(** ** z3 terms *)

(** Integer terms: [Int(name)], a Python integer coerced to a numeral, and
    [Sum(args)].  The constant created by
    [Int("({}, {})".format(x, y))] is represented by the position [(x, y)]
    itself: z3 identifies a constant by its name and the format is
    injective on pairs of naturals. *)
Inductive ArithRef : Type :=
| Int (name : position)
| IntVal (z : Z)
| Sum (args : list ArithRef).

(** Boolean terms: [a == b], [Or(args)], [And(args)], [Not(a)]. *)
Inductive BoolRef : Type :=
| Eq (a b : ArithRef)
| Or (args : list BoolRef)
| And (args : list BoolRef)
| Not (a : BoolRef).

(** A z3 model: the value of every integer constant. *)
Definition Model : Type := position -> Z.

Fixpoint evaluate (m : Model) (e : ArithRef) : Z :=
  match e with
  | Int n => m n
  | IntVal z => z
  | Sum args => fold_right Z.add 0%Z (map (evaluate m) args)
  end.

Fixpoint holds (m : Model) (b : BoolRef) : bool :=
  match b with
  | Eq a b => (evaluate m a =? evaluate m b)%Z
  | Or args => existsb (holds m) args
  | And args => forallb (holds m) args
  | Not a => negb (holds m a)
  end.

(** A model satisfies a solver's assertions. *)
Definition satisfies (m : Model) (assertions : list BoolRef) : bool :=
  forallb (holds m) assertions.

(** Structural equality of terms: [a.eq(b)], which is what [bool(a == b)]
    computes for two z3 terms. *)
Fixpoint ArithRef_eq (a b : ArithRef) : bool :=
  match a, b with
  | Int n, Int n' => position_eqb n n'
  | IntVal z, IntVal z' => (z =? z')%Z
  | Sum l, Sum l' =>
      (fix all2 (l l' : list ArithRef) : bool :=
         match l, l' with
         | [], [] => true
         | x :: l, y :: l' => ArithRef_eq x y && all2 l l'
         | _, _ => false
         end) l l'
  | _, _ => false
  end.

(** Python's [==] on two lists of terms: same length and elementwise
    [bool(a == b)]. *)
Fixpoint list_eq (l l' : list ArithRef) : bool :=
  match l, l' with
  | [], [] => true
  | x :: l, y :: l' => ArithRef_eq x y && list_eq l l'
  | _, _ => false
  end.

(** [solver.add(c)]: the solver's state is the list of its assertions. *)
Definition add (solver : list BoolRef) (c : BoolRef) : list BoolRef :=
  solver ++ [c].

(** ** The class BinaryPuzzle *)

(** A cell is an [Optional[int]]. *)
Definition cell : Type := option Z.

(** Modelled from the spec: the constant [N] of the module [.constants],
    which is not among the sources; it is the unknown marker, and the code
    tests for it with [value is None]. *)
Definition N : cell := None.

Definition cell_eq_dec : forall a b : cell, {a = b} + {a <> b}.
Proof. decide equality. apply Z.eq_dec. Defined.

Record BinaryPuzzle : Type := mkBinaryPuzzle {
  _puzzle : list (list cell);
  _size : nat
}.

(** [value in {0, 1, None}]. *)
Definition value_in (value : cell) : bool :=
  match value with
  | None => true
  | Some z => (z =? 0)%Z || (z =? 1)%Z
  end.

(** [BinaryPuzzle.__init__]. *)
Definition construct (puzzle : list (list cell)) : result BinaryPuzzle :=
  let size := length puzzle in
  if size =? 0 then Raise InvalidPuzzleError
  else if negb (fold_left (fun acc row => acc + length row) puzzle 0
                =? size ^ 2)
  then Raise InvalidPuzzleError
  else if negb (size mod 2 =? 0) then Raise InvalidPuzzleError
  else if negb (forallb (fun row => forallb value_in row) puzzle)
  then Raise InvalidPuzzleError
  else Ok (mkBinaryPuzzle puzzle size).

Definition size (self : BinaryPuzzle) : nat := _size self.

(** [rows]: a new list holding the rows of the puzzle. *)
Definition rows (self : BinaryPuzzle) : list (list cell) :=
  fold_left (fun result row => result ++ [row]) (_puzzle self) [].

(** [self._puzzle[x][y]]. *)
Definition puzzle_at (self : BinaryPuzzle) (x y : nat) : result cell :=
  row <- getitem (_puzzle self) x ;; getitem row y.

(** [columns]. *)
Definition columns (self : BinaryPuzzle) : result (list (list cell)) :=
  let size := size self in
  mapM (fun y => mapM (fun x => puzzle_at self x y) (range size)) (range size).

(** [positions]. *)
Definition positions (self : BinaryPuzzle) : list position :=
  let size := size self in
  flat_map (fun x => map (fun y => (x, y)) (range size)) (range size).

(** ** The method solve *)

(** [symbols]: the dict from every position to its z3 constant. *)
Definition make_symbols (self : BinaryPuzzle) : dict ArithRef :=
  map (fun pos => (pos, Int pos)) (positions self).

(** The rows and the columns of symbolic variables. *)
Definition symbol_rows (symbols : dict ArithRef) (size : nat)
  : result (list (list ArithRef)) :=
  mapM (fun x => mapM (fun y => dict_get symbols (x, y)) (range size))
       (range size).

Definition symbol_columns (symbols : dict ArithRef) (size : nat)
  : result (list (list ArithRef)) :=
  mapM (fun y => mapM (fun x => dict_get symbols (x, y)) (range size))
       (range size).

(** The loop adding the given values of the puzzle. *)
Definition add_values (self : BinaryPuzzle) (symbols : dict ArithRef)
    (solver : list BoolRef) : result (list BoolRef) :=
  foldM (fun solver pos =>
           let '(x, y) := pos in
           value <- puzzle_at self x y ;;
           match value with
           | None => Ok solver
           | Some v =>
               symbol <- dict_get symbols (x, y) ;;
               Ok (add solver (Eq symbol (IntVal v)))
           end)
        (positions self) solver.

(** Every cell holds 0 or 1. *)
Definition add_domains (symbols : dict ArithRef) (solver : list BoolRef)
  : list BoolRef :=
  fold_left (fun solver symbol =>
               add solver
                   (Or (map (fun value => Eq symbol (IntVal value))
                            [0%Z; 1%Z])))
            (dict_values symbols) solver.

(** Every line sums to [size // 2]. *)
Definition add_sums (lines : list (list ArithRef)) (size : nat)
    (solver : list BoolRef) : list BoolRef :=
  fold_left (fun solver line =>
               add solver (Eq (Sum line) (IntVal (Z.of_nat (size / 2)))))
            lines solver.

(** The disjuncts of the uniqueness constraint: one conjunction per
    ordered pair of lines that Python's [!=] tells apart. *)
Definition equal_pairs (lines : list (list ArithRef)) : list BoolRef :=
  flat_map (fun line_a =>
    flat_map (fun line_b =>
      if negb (list_eq line_a line_b)
      then [And (map (fun ab => Eq (fst ab) (snd ab)) (combine line_a line_b))]
      else [])
      lines)
    lines.

Definition add_unique (lines : list (list ArithRef)) (solver : list BoolRef)
  : list BoolRef :=
  add solver (Not (Or (equal_pairs lines))).

(** The overlapping windows of three cells of every line. *)
Definition add_triplets (lines : list (list ArithRef)) (size : nat)
    (solver : list BoolRef) : result (list BoolRef) :=
  foldM (fun solver line =>
           foldM (fun solver i =>
                    let i_end := i + 3 in
                    abc <- unpack3 (slice line i i_end) ;;
                    let '(a, b, c) := abc in
                    Ok (add solver (Not (And [Eq a b; Eq b c]))))
                 (range (size - 2)) solver)
        lines solver.

(** Everything [solve] asserts before it calls [solver.check()]. *)
Definition assertions (self : BinaryPuzzle) : result (list BoolRef) :=
  let size := size self in
  let solver := [] in
  let symbols := make_symbols self in
  rows <- symbol_rows symbols size ;;
  columns <- symbol_columns symbols size ;;
  solver <- add_values self symbols solver ;;
  let solver := add_domains symbols solver in
  let solver := add_sums rows size solver in
  let solver := add_sums columns size solver in
  let solver := add_unique rows solver in
  let solver := add_unique columns solver in
  if 2 <? size then
    solver <- add_triplets rows size solver ;;
    add_triplets columns size solver
  else Ok solver.

(** Reading the result off the model and constructing the solved puzzle. *)
Definition read_model (self : BinaryPuzzle) (model : Model)
  : result BinaryPuzzle :=
  let size := size self in
  let symbols := make_symbols self in
  let result : dict Z :=
    map (fun ps => (fst ps, evaluate model (snd ps))) symbols in
  puzzle <- mapM (fun x =>
                    mapM (fun y => v <- dict_get result (x, y) ;; Ok (Some v))
                         (range size))
                 (range size) ;;
  construct puzzle.

Section Solve.

(** [solver.check()] followed by [solver.model()]: [Some model] when z3
    answers [sat], [None] when it answers anything else. *)
Variable check : list BoolRef -> option Model.

Definition solve (self : BinaryPuzzle) : result BinaryPuzzle :=
  solver <- assertions self ;;
  match check solver with
  | None => Raise UnsolvablePuzzleError
  | Some model => read_model self model
  end.

End Solve.

(** ** Equality *)

(** What a rich comparison method returns. *)
Inductive comparison_result : Type :=
| NotImplemented
| Bool (b : bool).

(** The Python values a puzzle may be compared with: [other] is any
    [object].  Besides puzzles, integers, [None] and lists, it may be an
    instance of any other class, which is given by what its own [__eq__]
    answers when it is called with the puzzle. *)
Inductive object : Type :=
| PuzzleObject (p : BinaryPuzzle)
| IntObject (z : Z)
| NoneObject
| ListObject (l : list (list cell))
| OtherObject (eq_method : BinaryPuzzle -> comparison_result).

(** [==] on two lists of lists of cells. *)
Definition rows_eqb (a b : list (list cell)) : bool :=
  if list_eq_dec (list_eq_dec cell_eq_dec) a b then true else false.

(** [BinaryPuzzle.__eq__]. *)
Definition BinaryPuzzle__eq__ (self : BinaryPuzzle) (other : object)
  : comparison_result :=
  match other with
  | PuzzleObject other => Bool (rows_eqb (rows self) (rows other))
  | _ => NotImplemented
  end.

(** The [__eq__] of the other operand, called with the puzzle as its
    argument: the builtin types decline an operand that is not of their
    own type, another class answers with its own method. *)
Definition reflected__eq__ (other : object) (self : BinaryPuzzle)
  : comparison_result :=
  match other with
  | PuzzleObject other => BinaryPuzzle__eq__ other (PuzzleObject self)
  | IntObject _ | NoneObject | ListObject _ => NotImplemented
  | OtherObject eq_method => eq_method self
  end.

(** An object whose [__eq__] answers [True] to everything, as
    [unittest.mock.ANY] does. *)
Definition ANY : object := OtherObject (fun _ => Bool true).

(** The expression [self == other]: the method of the left operand, then
    the reflected method, then identity.  Identity is reached only when
    both methods decline, that is when [other] is not a puzzle, and an
    object that is not a puzzle is not [self]. *)
Definition equals (self : BinaryPuzzle) (other : object) : bool :=
  match BinaryPuzzle__eq__ self other with
  | Bool b => b
  | NotImplemented =>
      match reflected__eq__ other self with
      | Bool b => b
      | NotImplemented => false
      end
  end.

(** ** An exhaustive search standing in for z3 *)

(** The development is parametric in [check].  This module gives one
    executable instance: it tries every 0/1 valuation of the constants
    that occur in the assertions, which decides every system in which
    each constant is asserted to be 0 or 1. *)
Module Search.

Fixpoint constants (e : ArithRef) : list position :=
  match e with
  | Int n => [n]
  | IntVal _ => []
  | Sum args => flat_map constants args
  end.

Fixpoint constants_of (b : BoolRef) : list position :=
  match b with
  | Eq a b => constants a ++ constants b
  | Or args => flat_map constants_of args
  | And args => flat_map constants_of args
  | Not a => constants_of a
  end.

Definition position_eq_dec : forall p q : position, {p = q} + {p <> q}.
Proof. decide equality; apply Nat.eq_dec. Defined.

Fixpoint valuations (vs : list position) : list (dict Z) :=
  match vs with
  | [] => [[]]
  | v :: vs' =>
      flat_map (fun d => [(v, 0%Z) :: d; (v, 1%Z) :: d]) (valuations vs')
  end.

Definition model_of (d : dict Z) : Model :=
  fun pos => match dict_get d pos with Ok z => z | Raise _ => 0%Z end.

(** [satisfies], stopping at the first assertion that fails. *)
Fixpoint all_hold (m : Model) (assertions : list BoolRef) : bool :=
  match assertions with
  | [] => true
  | c :: rest => if holds m c then all_hold m rest else false
  end.

Definition check (assertions : list BoolRef) : option Model :=
  let vs := nodup position_eq_dec (flat_map constants_of assertions) in
  option_map model_of
    (find (fun d => all_hold (model_of d) assertions) (valuations vs)).

End Search.

(** ** The rules of the puzzle, in the words of the specification *)

Module Rules.

(** [line.count(v)]. *)
Definition count (v : cell) (line : list cell) : nat :=
  count_occ cell_eq_dec line v.

(** A line holds exactly [size/2] zeros and exactly [size/2] ones. *)
Definition balanced (size : nat) (line : list cell) : Prop :=
  count (Some 0%Z) line = size / 2 /\ count (Some 1%Z) line = size / 2.

(** Three consecutive cells of a line hold the same value. *)
Definition has_triple (line : list cell) : Prop :=
  exists i v,
    nth_error line i = Some v /\
    nth_error line (i + 1) = Some v /\
    nth_error line (i + 2) = Some v.

(** Two lines differ in at least one cell. *)
Definition differ (line_a line_b : list cell) : Prop :=
  exists i a b,
    nth_error line_a i = Some a /\ nth_error line_b i = Some b /\ a <> b.

(** Any two distinct lines of a family differ in at least one cell. *)
Definition pairwise_distinct (lines : list (list cell)) : Prop :=
  forall i j line_a line_b,
    i <> j ->
    nth_error lines i = Some line_a ->
    nth_error lines j = Some line_b ->
    differ line_a line_b.

(** Every row has as many cells as the grid has rows. *)
Definition square (g : BinaryPuzzle) : Prop :=
  Forall (fun row => length row = size g) (rows g).

(** Every cell holds 0 or 1. *)
Definition fully_assigned (g : BinaryPuzzle) : Prop :=
  Forall (Forall (fun value => value = Some 0%Z \/ value = Some 1%Z)) (rows g).

(** The four rules: every cell is 0 or 1, every line is balanced, no line
    has three consecutive equal cells, and the rows, and the columns, are
    pairwise distinct. *)
Definition obeys (g : BinaryPuzzle) : Prop :=
  fully_assigned g /\
  exists cols,
    columns g = Ok cols /\
    (forall line, In line (rows g ++ cols) -> balanced (size g) line) /\
    (forall line, In line (rows g ++ cols) -> ~ has_triple line) /\
    pairwise_distinct (rows g) /\
    pairwise_distinct cols.

(** [g'] assigns 0 or 1 to the unknown cells of [g] and keeps its given
    cells. *)
Definition completes (g g' : BinaryPuzzle) : Prop :=
  size g' = size g /\
  map (@length cell) (rows g') = map (@length cell) (rows g) /\
  forall x y value,
    puzzle_at g x y = Ok value ->
    match value with
    | Some v => puzzle_at g' x y = Ok (Some v)
    | None =>
        puzzle_at g' x y = Ok (Some 0%Z) \/ puzzle_at g' x y = Ok (Some 1%Z)
    end.

End Rules.

(** ** Index views used by the proofs *)

(** The cell at [(x, y)], [N] outside the grid. *)
Definition cell_at (self : BinaryPuzzle) (x y : nat) : cell :=
  nth y (nth x (_puzzle self) []) N.

(** The sum of [g 0 .. g (n-1)]. *)
Definition sum_upto (n : nat) (g : nat -> Z) : Z :=
  fold_right Z.add 0%Z (map g (range n)).

(** What the assertions on a family of [n] lines of [n] constants say of
    the values [f a b] of the [b]-th constant of the [a]-th line. *)
Definition lines_ok (n : nat) (f : nat -> nat -> Z) : Prop :=
  (forall a, a < n -> sum_upto n (f a) = Z.of_nat (n / 2)) /\
  (forall a a', a < n -> a' < n -> a <> a' ->
     exists b, b < n /\ f a b <> f a' b) /\
  (2 < n -> forall a i, a < n -> i < n - 2 ->
     ~ (f a i = f a (i + 1) /\ f a (i + 1) = f a (i + 2))).

(** What the assertions of [solve] say of a model. *)
Definition model_ok (self : BinaryPuzzle) (m : Model) : Prop :=
  let n := size self in
  (forall x y v, x < n -> y < n -> cell_at self x y = Some v -> m (x, y) = v) /\
  (forall x y, x < n -> y < n -> m (x, y) = 0%Z \/ m (x, y) = 1%Z) /\
  lines_ok n (fun x y => m (x, y)) /\
  lines_ok n (fun y x => m (x, y)).

(** The [n] lines of [n] constants named by [name]. *)
Definition symbol_line (name : nat -> nat -> position) (n a : nat)
  : list ArithRef :=
  map (fun b => Int (name a b)) (range n).

Definition symbol_lines (name : nat -> nat -> position) (n : nat)
  : list (list ArithRef) :=
  map (symbol_line name n) (range n).

(** The [n] lines of [n] cells with the values [f]. *)
Definition cell_line (n : nat) (g : nat -> Z) : list cell :=
  map (fun b => Some (g b)) (range n).

Definition cell_lines (f : nat -> nat -> Z) (n : nat) : list (list cell) :=
  map (fun a => cell_line n (f a)) (range n).

(** The puzzle read off a model. *)
Definition puzzle_of (m : Model) (n : nat) : BinaryPuzzle :=
  mkBinaryPuzzle (cell_lines (fun x y => m (x, y)) n) n.

(** The model that a fully assigned grid is read off. *)
Definition model_from (g : BinaryPuzzle) : Model :=
  fun pos => match cell_at g (fst pos) (snd pos) with
             | Some v => v
             | None => 0%Z
             end.

(** ** The assertions of solve on a square puzzle, in closed form *)

Definition value_assertions (self : BinaryPuzzle) : list BoolRef :=
  flat_map (fun pos =>
              match cell_at self (fst pos) (snd pos) with
              | Some v => [Eq (Int pos) (IntVal v)]
              | None => []
              end)
           (positions self).

Definition domain_assertions (self : BinaryPuzzle) : list BoolRef :=
  map (fun pos => Or [Eq (Int pos) (IntVal 0%Z); Eq (Int pos) (IntVal 1%Z)])
      (positions self).

Definition sum_assertions (lines : list (list ArithRef)) (n : nat)
  : list BoolRef :=
  map (fun line => Eq (Sum line) (IntVal (Z.of_nat (n / 2)))) lines.

Definition window (line : list ArithRef) (i : nat) : BoolRef :=
  let d := IntVal 0%Z in
  Not (And [Eq (nth i line d) (nth (i + 1) line d);
            Eq (nth (i + 1) line d) (nth (i + 2) line d)]).

Definition triplet_assertions (lines : list (list ArithRef)) (n : nat)
  : list BoolRef :=
  flat_map (fun line => map (window line) (range (n - 2))) lines.

Definition row_symbols (n : nat) : list (list ArithRef) :=
  symbol_lines (fun x y => (x, y)) n.

Definition column_symbols (n : nat) : list (list ArithRef) :=
  symbol_lines (fun y x => (x, y)) n.

Definition asserted (self : BinaryPuzzle) : list BoolRef :=
  let n := size self in
  ((((((value_assertions self
        ++ domain_assertions self)
       ++ sum_assertions (row_symbols n) n)
      ++ sum_assertions (column_symbols n) n)
     ++ [Not (Or (equal_pairs (row_symbols n)))])
    ++ [Not (Or (equal_pairs (column_symbols n)))])
   ++ (if 2 <? n
       then triplet_assertions (row_symbols n) n
            ++ triplet_assertions (column_symbols n) n
       else [])).

(** A puzzle whose rows are [size] lists of [size] cells. *)
Definition shaped (self : BinaryPuzzle) : Prop :=
  length (_puzzle self) = size self /\
  Forall (fun row => length row = size self) (_puzzle self).

(** ** What is assumed of z3 *)

(** A model returned with the answer [sat] satisfies the assertions. *)
Definition sound (check : list BoolRef -> option Model) : Prop :=
  forall solver m, check solver = Some m -> satisfies m solver = true.

(** z3 answers [sat] on every satisfiable system that [solve] builds for a
    constructed puzzle. *)
Definition complete (check : list BoolRef -> option Model) : Prop :=
  forall puzzle self solver m,
    construct puzzle = Ok self ->
    assertions self = Ok solver ->
    satisfies m solver = true ->
    check solver <> None.

(** An assertion of the no-triple rule. *)
Definition is_window (c : BoolRef) : Prop :=
  exists a b c', c = Not (And [Eq a b; Eq b c']).

(** ** The puzzles of the scenarios *)

Definition ragged_puzzle : list (list cell) :=
  [[Some 0; Some 1; Some 0]; [Some 1]]%Z.

Definition ones_puzzle : list (list cell) :=
  [[Some 1; Some 1; Some 1; Some 1];
   [Some 1; Some 1; Some 1; Some 1];
   [Some 1; Some 1; Some 1; Some 1];
   [Some 1; Some 1; Some 1; Some 1]]%Z.

Definition corner_puzzle : list (list cell) :=
  [[Some 1%Z; Some 1%Z]; [Some 1%Z; N]].

Definition solved_puzzle : list (list cell) :=
  [[Some 0; Some 1]; [Some 1; Some 0]]%Z.

Definition clue_puzzle : list (list cell) :=
  [[N; Some 1%Z]; [N; N]].

Definition simple_4x4 : list (list cell) :=
  [[Some 0; Some 1; Some 1; Some 0];
   [Some 1; Some 0; Some 0; Some 1];
   [Some 0; Some 1; Some 0; Some 1];
   [Some 1; Some 0; Some 1; Some 0]]%Z.

(** * Proofs *)

(** ** The exception monad and loops *)

Lemma bind_Ok_inv (A B : Type) (r : result A) (k : A -> result B) (b : B) :
  bind r k = Ok b -> exists a, r = Ok a /\ k a = Ok b.
Proof.
  destruct r as [a | e]; simpl; intros H; [ | discriminate ].
  exists a; split; [ reflexivity | exact H ].
Qed.

Lemma mapM_map (A B : Type) (f : A -> result B) (g : A -> B) (l : list A) :
  (forall a, In a l -> f a = Ok (g a)) -> mapM f l = Ok (map g l).
Proof.
  induction l as [ | a l IH]; simpl; intros H; [ reflexivity | ].
  rewrite (H a (or_introl eq_refl)); simpl.
  rewrite IH by (intros; apply H; right; assumption).
  reflexivity.
Qed.

Lemma fold_left_add (A : Type) (f : A -> BoolRef) (l : list A)
    (solver : list BoolRef) :
  fold_left (fun solver a => add solver (f a)) l solver = solver ++ map f l.
Proof.
  revert solver; induction l as [ | a l IH]; simpl; intros solver.
  - now rewrite app_nil_r.
  - rewrite IH. unfold add. now rewrite <- app_assoc.
Qed.

Lemma foldM_add (A : Type) (f : list BoolRef -> A -> result (list BoolRef))
    (g : A -> list BoolRef) (l : list A) :
  (forall a solver, In a l -> f solver a = Ok (solver ++ g a)) ->
  forall solver, foldM f l solver = Ok (solver ++ flat_map g l).
Proof.
  induction l as [ | a l IH]; simpl; intros H solver.
  - now rewrite app_nil_r.
  - rewrite (H a solver (or_introl eq_refl)); simpl.
    rewrite IH by (intros; apply H; right; assumption).
    now rewrite <- app_assoc.
Qed.

Lemma flat_map_single (A B : Type) (f : A -> B) (l : list A) :
  flat_map (fun a => [f a]) l = map f l.
Proof. induction l as [ | a l IH]; simpl; [ | rewrite IH ]; reflexivity. Qed.

Lemma In_range (n i : nat) : In i (range n) <-> i < n.
Proof. unfold range. rewrite in_seq. lia. Qed.

Lemma length_range (n : nat) : length (range n) = n.
Proof. apply length_seq. Qed.

Lemma nth_error_range (n i : nat) : i < n -> nth_error (range n) i = Some i.
Proof.
  intros H. unfold range.
  rewrite (nth_error_nth' _ 0) by (rewrite length_seq; exact H).
  now rewrite seq_nth.
Qed.

Lemma nth_error_map_range (A : Type) (f : nat -> A) (n i : nat) :
  nth_error (map f (range n)) i = if i <? n then Some (f i) else None.
Proof.
  destruct (Nat.ltb_spec i n) as [H | H].
  - now rewrite nth_error_map, nth_error_range.
  - apply nth_error_None. now rewrite length_map, length_range.
Qed.

Lemma getitem_Ok (A : Type) (l : list A) (i : nat) (d : A) :
  i < length l -> getitem l i = Ok (nth i l d).
Proof.
  intros H. unfold getitem. now rewrite (nth_error_nth' l d H).
Qed.

(** ** Positions and dictionaries *)

Lemma position_eqb_eq (p q : position) : position_eqb p q = true <-> p = q.
Proof.
  destruct p as [a b], q as [c d]; unfold position_eqb; simpl.
  rewrite andb_true_iff, !Nat.eqb_eq.
  split; [ intros [-> ->]; reflexivity | intros [= -> ->]; split; reflexivity ].
Qed.

Lemma In_positions (self : BinaryPuzzle) (x y : nat) :
  In (x, y) (positions self) <-> x < size self /\ y < size self.
Proof.
  unfold positions. rewrite in_flat_map. split.
  - intros [x' [Hx Hy]]. apply in_map_iff in Hy as [y' [[= <- <-] Hy]].
    now rewrite In_range in Hx, Hy.
  - intros [Hx Hy]. exists x. rewrite In_range. split; [ exact Hx | ].
    apply in_map_iff. exists y. now rewrite In_range.
Qed.

Lemma dict_get_comprehension (V : Type) (h : position -> V)
    (keys : list position) (k : position) :
  In k keys -> dict_get (map (fun pos => (pos, h pos)) keys) k = Ok (h k).
Proof.
  unfold dict_get. induction keys as [ | k' keys IH]; simpl; [ tauto | ].
  intros H. destruct (position_eqb k' k) eqn:E.
  - apply position_eqb_eq in E. now subst.
  - destruct H as [-> | H]; [ | now apply IH ].
    assert (position_eqb k k = true) by now apply position_eqb_eq.
    congruence.
Qed.

(** ** Construction *)

Lemma rows_puzzle (self : BinaryPuzzle) : rows self = _puzzle self.
Proof.
  unfold rows. generalize (_puzzle self) as l.
  assert (H : forall (l acc : list (list cell)),
             fold_left (fun result row => result ++ [row]) l acc = acc ++ l).
  { induction l as [ | row l IH]; simpl; intros acc.
    - now rewrite app_nil_r.
    - rewrite IH. now rewrite <- app_assoc. }
  intros l. apply (H l []).
Qed.

Lemma total_cells (puzzle : list (list cell)) (acc : nat) :
  fold_left (fun acc row => acc + length row) puzzle acc
  = acc + length (concat puzzle).
Proof.
  revert acc; induction puzzle as [ | row l IH]; simpl; intros acc.
  - lia.
  - rewrite IH, length_app. lia.
Qed.

Lemma value_in_spec (value : cell) :
  value_in value = true <->
  value = Some 0%Z \/ value = Some 1%Z \/ value = N.
Proof.
  destruct value as [z | ]; simpl.
  - rewrite orb_true_iff, !Z.eqb_eq. unfold N.
    split; [ intros [-> | ->]; auto | intros [[= ->] | [[= ->] | [=]]]; auto ].
  - unfold N. tauto.
Qed.

Lemma values_in_spec (puzzle : list (list cell)) :
  forallb (fun row => forallb value_in row) puzzle = false <->
  exists row value,
    In row puzzle /\ In value row /\
    value <> Some 0%Z /\ value <> Some 1%Z /\ value <> N.
Proof.
  split.
  - intros H.
    destruct (existsb (fun row => existsb (fun v => negb (value_in v)) row)
                      puzzle) eqn:E.
    + apply existsb_exists in E as [row [Hrow E]].
      apply existsb_exists in E as [value [Hvalue E]].
      exists row, value. split; [ exact Hrow | split; [ exact Hvalue | ] ].
      apply negb_true_iff in E.
      repeat split; intros ->; discriminate.
    + exfalso.
      assert (T : forallb (fun row => forallb value_in row) puzzle = true);
        [ | congruence ].
      apply forallb_forall; intros row Hrow.
      apply forallb_forall; intros value Hvalue.
      destruct (value_in value) eqn:V; [ reflexivity | exfalso ].
      assert (X : existsb (fun row => existsb (fun v => negb (value_in v)) row)
                    puzzle = true); [ | congruence ].
      apply existsb_exists; exists row; split; [ exact Hrow | ].
      apply existsb_exists; exists value; split; [ exact Hvalue | ].
      now rewrite V.
  - intros [row [value [Hrow [Hvalue [H0 [H1 HN]]]]]].
    apply not_true_is_false; intros T.
    rewrite forallb_forall in T. specialize (T row Hrow).
    rewrite forallb_forall in T. specialize (T value Hvalue).
    apply value_in_spec in T. tauto.
Qed.

Lemma construct_Ok_inv (puzzle : list (list cell)) (g : BinaryPuzzle) :
  construct puzzle = Ok g ->
  g = mkBinaryPuzzle puzzle (length puzzle) /\
  length puzzle <> 0 /\
  length (concat puzzle) = length puzzle ^ 2 /\
  length puzzle mod 2 = 0 /\
  forallb (fun row => forallb value_in row) puzzle = true.
Proof.
  unfold construct. cbv zeta. rewrite total_cells, Nat.add_0_l.
  destruct (Nat.eqb_spec (length puzzle) 0) as [ | H0]; [ discriminate | ].
  destruct (Nat.eqb_spec (length (concat puzzle)) (length puzzle ^ 2))
    as [H1 | ]; cbn [negb]; [ | discriminate ].
  destruct (Nat.eqb_spec (length puzzle mod 2) 0) as [H2 | ]; cbn [negb];
    [ | discriminate ].
  destruct (forallb (fun row => forallb value_in row) puzzle) eqn:H3;
    cbn [negb]; [ | discriminate ].
  intros [= <-]. repeat split; assumption.
Qed.

Lemma construct_Ok (puzzle : list (list cell)) :
  length puzzle <> 0 ->
  length (concat puzzle) = length puzzle ^ 2 ->
  length puzzle mod 2 = 0 ->
  forallb (fun row => forallb value_in row) puzzle = true ->
  construct puzzle = Ok (mkBinaryPuzzle puzzle (length puzzle)).
Proof.
  intros H0 H1 H2 H3. unfold construct. cbv zeta.
  rewrite total_cells, Nat.add_0_l.
  destruct (Nat.eqb_spec (length puzzle) 0) as [ | _]; [ contradiction | ].
  destruct (Nat.eqb_spec (length (concat puzzle)) (length puzzle ^ 2))
    as [_ | ]; cbn [negb]; [ | contradiction ].
  rewrite H2, H3. reflexivity.
Qed.

Lemma odd_mod2 (n : nat) : Nat.Odd n <-> n mod 2 <> 0.
Proof.
  pose proof (Nat.div_mod_eq n 2) as D.
  pose proof (Nat.mod_upper_bound n 2) as U.
  split.
  - intros [k ->] E. lia.
  - intros H. exists (n / 2). lia.
Qed.

(** C8: [construct] raises [InvalidPuzzleError] exactly when the input is
    empty, or its total number of cells is not the square of its number
    of rows, or its number of rows is odd, or one of its cells holds
    something else than 0, 1 and the unknown marker; in every other case
    it returns the puzzle holding the input. *)
Theorem construct_raises_iff : forall puzzle : list (list cell),
  let size := length puzzle in
  let invalid :=
    puzzle = [] \/
    length (concat puzzle) <> size ^ 2 \/
    Nat.Odd size \/
    (exists row value,
        In row puzzle /\ In value row /\
        value <> Some 0%Z /\ value <> Some 1%Z /\ value <> N) in
  (construct puzzle = Raise InvalidPuzzleError <-> invalid) /\
  (~ invalid -> construct puzzle = Ok (mkBinaryPuzzle puzzle size)).
Proof.
  intros puzzle size invalid.
  assert (Valid : ~ invalid ->
                  construct puzzle = Ok (mkBinaryPuzzle puzzle size)).
  { intros Hn. unfold invalid in Hn. apply construct_Ok.
    - intros E. apply Hn. left. now apply length_zero_iff_nil.
    - destruct (Nat.eq_dec (length (concat puzzle)) (length puzzle ^ 2));
        [ assumption | exfalso; apply Hn; right; left; assumption ].
    - destruct (Nat.eq_dec (length puzzle mod 2) 0) as [ | O];
        [ assumption | ].
      exfalso; apply Hn; right; right; left. now apply odd_mod2.
    - destruct (forallb (fun row => forallb value_in row) puzzle) eqn:E;
        [ reflexivity | ].
      exfalso; apply Hn; right; right; right. now apply values_in_spec. }
  split; [ split | exact Valid ].
  - intros R. unfold invalid.
    unfold construct in R. cbv zeta in R. rewrite total_cells, Nat.add_0_l in R.
    destruct (Nat.eqb_spec (length puzzle) 0) as [H0 | H0].
    { left. now apply length_zero_iff_nil. }
    destruct (Nat.eqb_spec (length (concat puzzle)) (length puzzle ^ 2))
      as [H1 | H1]; cbn [negb] in R.
    2:{ right; left; exact H1. }
    destruct (Nat.eqb_spec (length puzzle mod 2) 0) as [H2 | H2];
      cbn [negb] in R.
    2:{ right; right; left. now apply odd_mod2. }
    destruct (forallb (fun row => forallb value_in row) puzzle) eqn:H3;
      cbn [negb] in R; [ discriminate | ].
    right; right; right. now apply values_in_spec.
  - intros I.
    destruct (construct puzzle) as [g | e] eqn:C.
    + exfalso. apply construct_Ok_inv in C as [_ [H0 [H1 [H2 H3]]]].
      destruct I as [-> | [I | [I | I]]].
      * now apply H0.
      * now apply I.
      * apply odd_mod2 in I. now apply I.
      * apply values_in_spec in I. congruence.
    + f_equal. unfold construct in C.
      repeat match type of C with
             | (if ?b then _ else _) = _ => destruct b
             end; congruence.
Qed.

(** C1: the check of [construct] compares the total number of cells with
    the square of the number of rows, so it accepts the ragged input
    [[0, 1, 0], [1]], whose rows have 3 cells and 1 cell. *)
Theorem construct_accepts_ragged :
  exists g,
    construct ragged_puzzle = Ok g /\
    size g = 2 /\
    ~ Rules.square g.
Proof.
  eexists. split; [ reflexivity | ]. split; [ reflexivity | ].
  unfold Rules.square. rewrite rows_puzzle; simpl. intros H.
  apply Forall_inv in H. simpl in H. lia.
Qed.

(** ** Equality with a value that is not a puzzle *)

(** C10, as the code has it: when the other operand is not a puzzle,
    [__eq__] declines with [NotImplemented], so [self == other] raises
    nothing and is what the [__eq__] of the other operand answers: it is
    false when that method declines too, as it does for an integer,
    [None] and a list, or answers false, and it is true exactly when that
    method answers true. *)
Theorem equals_non_puzzle_defers :
  forall (self : BinaryPuzzle) (other : object),
    (forall p, other <> PuzzleObject p) ->
    BinaryPuzzle__eq__ self other = NotImplemented /\
    (equals self other = true <-> reflected__eq__ other self = Bool true) /\
    (reflected__eq__ other self = NotImplemented ->
     equals self other = false) /\
    (forall z, other = IntObject z -> equals self other = false) /\
    (other = NoneObject -> equals self other = false) /\
    (forall l, other = ListObject l -> equals self other = false).
Proof.
  intros self other H.
  assert (E : BinaryPuzzle__eq__ self other = NotImplemented).
  { destruct other as [p | z | | l | m]; try reflexivity.
    exfalso. now apply (H p). }
  split; [ exact E | ]. unfold equals. rewrite E.
  split; [ | split; [ | split; [ | split ] ] ].
  - destruct (reflected__eq__ other self) as [ | b].
    + split; discriminate.
    + split; [ now intros -> | now intros [= ->] ].
  - now intros ->.
  - now intros z ->.
  - now intros ->.
  - now intros l ->.
Qed.

Lemma equals_non_puzzle_defers_witness :
  (forall p, IntObject 42 <> PuzzleObject p) /\
  BinaryPuzzle__eq__ (mkBinaryPuzzle solved_puzzle 2) (IntObject 42)
  = NotImplemented /\
  equals (mkBinaryPuzzle solved_puzzle 2) (IntObject 42) = false.
Proof.
  split; [ intros p; discriminate | ].
  destruct (equals_non_puzzle_defers
              (mkBinaryPuzzle solved_puzzle 2) (IntObject 42))
    as [E [_ [_ [I _]]]].
  - intros p; discriminate.
  - split; [ exact E | ]. now apply (I 42%Z).
Defined.

(** C10, as it is stated, fails: the constructed puzzle [[0, 1], [1, 0]]
    compared with an object that is not a puzzle and whose [__eq__]
    answers [True] gives [True]. *)
Lemma equals_non_puzzle_counterexample :
  construct solved_puzzle = Ok (mkBinaryPuzzle solved_puzzle 2) /\
  (forall p, ANY <> PuzzleObject p) /\
  equals (mkBinaryPuzzle solved_puzzle 2) ANY = true.
Proof.
  split; [ reflexivity | ]. split; [ intros p; discriminate | reflexivity ].
Qed.

(** ** The assertions of solve on a square puzzle *)

Lemma puzzle_at_shaped (self : BinaryPuzzle) (x y : nat) :
  shaped self -> x < size self -> y < size self ->
  puzzle_at self x y = Ok (cell_at self x y).
Proof.
  intros [L R] Hx Hy. unfold puzzle_at, cell_at.
  rewrite (getitem_Ok _ _ _ []) by lia. simpl.
  apply getitem_Ok.
  rewrite Forall_forall in R. rewrite R; [ exact Hy | ].
  apply nth_In. lia.
Qed.

Lemma symbol_rows_eq (self : BinaryPuzzle) :
  symbol_rows (make_symbols self) (size self) = Ok (row_symbols (size self)).
Proof.
  unfold symbol_rows, row_symbols, symbol_lines.
  apply mapM_map; intros x Hx. apply mapM_map; intros y Hy.
  unfold make_symbols. apply (dict_get_comprehension _ Int).
  apply In_positions. now rewrite In_range in Hx, Hy.
Qed.

Lemma symbol_columns_eq (self : BinaryPuzzle) :
  symbol_columns (make_symbols self) (size self)
  = Ok (column_symbols (size self)).
Proof.
  unfold symbol_columns, column_symbols, symbol_lines.
  apply mapM_map; intros y Hy. apply mapM_map; intros x Hx.
  unfold make_symbols. apply (dict_get_comprehension _ Int).
  apply In_positions. now rewrite In_range in Hx, Hy.
Qed.

Lemma add_values_eq (self : BinaryPuzzle) (solver : list BoolRef) :
  shaped self ->
  add_values self (make_symbols self) solver
  = Ok (solver ++ value_assertions self).
Proof.
  intros S. unfold add_values, value_assertions.
  apply foldM_add. intros [x y] s H.
  pose proof H as H'. apply In_positions in H' as [Hx Hy].
  rewrite (puzzle_at_shaped _ _ _ S Hx Hy); simpl.
  destruct (cell_at self x y) as [v | ].
  - unfold make_symbols. rewrite (dict_get_comprehension _ Int _ _ H).
    reflexivity.
  - now rewrite app_nil_r.
Qed.

Lemma add_domains_eq (self : BinaryPuzzle) (solver : list BoolRef) :
  add_domains (make_symbols self) solver = solver ++ domain_assertions self.
Proof.
  unfold add_domains, domain_assertions, dict_values, make_symbols.
  rewrite map_map; simpl.
  rewrite (fold_left_add _
             (fun symbol =>
                Or (map (fun value => Eq symbol (IntVal value)) [0%Z; 1%Z]))).
  now rewrite map_map.
Qed.

Lemma slice_window (line : list ArithRef) (i : nat) (d : ArithRef) :
  i + 3 <= length line ->
  slice line i (i + 3) = [nth i line d; nth (i + 1) line d; nth (i + 2) line d].
Proof.
  revert line; induction i as [ | i IH]; intros line H.
  - destruct line as [ | a [ | b [ | c line]]]; simpl in H; try lia.
    reflexivity.
  - destruct line as [ | a line]; simpl in H; [ lia | ].
    specialize (IH line ltac:(lia)).
    unfold slice in *. replace (S i + 3 - S i) with 3 by lia.
    replace (i + 3 - i) with 3 in IH by lia. exact IH.
Qed.

Lemma add_triplets_eq (lines : list (list ArithRef)) (n : nat)
    (solver : list BoolRef) :
  Forall (fun line => length line = n) lines ->
  add_triplets lines n solver = Ok (solver ++ triplet_assertions lines n).
Proof.
  intros L. unfold add_triplets, triplet_assertions.
  apply foldM_add. intros line s Hline.
  rewrite Forall_forall in L. specialize (L line Hline).
  rewrite <- (flat_map_single _ _ (window line) (range (n - 2))).
  apply foldM_add. intros i s' Hi. apply In_range in Hi.
  rewrite (slice_window line i (IntVal 0%Z)) by lia.
  reflexivity.
Qed.

Lemma symbol_lines_length (name : nat -> nat -> position) (n : nat) :
  Forall (fun line => length line = n) (symbol_lines name n).
Proof.
  apply Forall_forall; intros line H. unfold symbol_lines in H.
  apply in_map_iff in H as [a [<- _]]. unfold symbol_line.
  now rewrite length_map, length_range.
Qed.

Lemma assertions_shaped (self : BinaryPuzzle) :
  shaped self -> assertions self = Ok (asserted self).
Proof.
  intros S. unfold assertions, asserted.
  rewrite symbol_rows_eq, symbol_columns_eq; simpl.
  rewrite (add_values_eq _ _ S); simpl.
  rewrite add_domains_eq. unfold add_sums, add_unique.
  rewrite !fold_left_add. unfold add.
  fold (sum_assertions (row_symbols (size self)) (size self)).
  fold (sum_assertions (column_symbols (size self)) (size self)).
  destruct (2 <? size self).
  - rewrite add_triplets_eq by apply symbol_lines_length. simpl.
    rewrite add_triplets_eq by apply symbol_lines_length.
    now rewrite <- app_assoc.
  - now rewrite app_nil_r.
Qed.

(** ** What the assertions say of a model *)

Lemma satisfies_app (m : Model) (s t : list BoolRef) :
  satisfies m (s ++ t) = satisfies m s && satisfies m t.
Proof. apply forallb_app. Qed.

Lemma forallb_false_exists (A : Type) (f : A -> bool) (l : list A) :
  forallb f l = false -> exists a, In a l /\ f a = false.
Proof.
  induction l as [ | a l IH]; simpl; [ discriminate | ].
  destruct (f a) eqn:E; simpl.
  - intros H. destruct (IH H) as [b [Hb Fb]]. exists b. auto.
  - intros _. exists a. auto.
Qed.

Lemma value_assertions_sem (self : BinaryPuzzle) (m : Model) :
  satisfies m (value_assertions self) = true <->
  (forall x y v, x < size self -> y < size self ->
                 cell_at self x y = Some v -> m (x, y) = v).
Proof.
  unfold satisfies, value_assertions. rewrite forallb_forall. split.
  - intros H x y v Hx Hy C.
    specialize (H (Eq (Int (x, y)) (IntVal v))). simpl in H.
    apply Z.eqb_eq, H. apply in_flat_map. exists (x, y). split.
    + now apply In_positions.
    + simpl. rewrite C. now left.
  - intros H c Hc. apply in_flat_map in Hc as [[x y] [Hp Hc]]. simpl in Hc.
    apply In_positions in Hp as [Hx Hy].
    destruct (cell_at self x y) as [v | ] eqn:C; simpl in Hc; [ | tauto ].
    destruct Hc as [<- | []]. simpl. apply Z.eqb_eq. now apply H.
Qed.

Lemma domain_assertions_sem (self : BinaryPuzzle) (m : Model) :
  satisfies m (domain_assertions self) = true <->
  (forall x y, x < size self -> y < size self ->
               m (x, y) = 0%Z \/ m (x, y) = 1%Z).
Proof.
  unfold satisfies, domain_assertions. rewrite forallb_forall. split.
  - intros H x y Hx Hy.
    specialize (H (Or [Eq (Int (x, y)) (IntVal 0%Z);
                       Eq (Int (x, y)) (IntVal 1%Z)])).
    simpl in H. rewrite orb_false_r, orb_true_iff, !Z.eqb_eq in H.
    apply H. apply in_map_iff. exists (x, y). split; [ reflexivity | ].
    now apply In_positions.
  - intros H c Hc. apply in_map_iff in Hc as [[x y] [<- Hp]].
    apply In_positions in Hp as [Hx Hy]. simpl.
    rewrite orb_false_r, orb_true_iff, !Z.eqb_eq. now apply H.
Qed.

Section Lines.

Variable name : nat -> nat -> position.
Variable n : nat.
Variable m : Model.

Local Abbreviation line := (symbol_line name n).

Lemma In_symbol_lines (l : list ArithRef) :
  In l (symbol_lines name n) <-> exists a, a < n /\ l = line a.
Proof.
  unfold symbol_lines. rewrite in_map_iff. split.
  - intros [a [<- Ha]]. exists a. now rewrite In_range in Ha.
  - intros [a [Ha ->]]. exists a. now rewrite In_range.
Qed.

Lemma nth_line (a i : nat) (d : ArithRef) :
  i < n -> nth i (line a) d = Int (name a i).
Proof.
  intros H. apply nth_error_nth. unfold symbol_line.
  rewrite nth_error_map_range.
  apply Nat.ltb_lt in H. now rewrite H.
Qed.

Lemma sum_assertions_sem :
  satisfies m (sum_assertions (symbol_lines name n) n) = true <->
  (forall a, a < n ->
             sum_upto n (fun b => m (name a b)) = Z.of_nat (n / 2)).
Proof.
  unfold satisfies, sum_assertions. rewrite forallb_forall.
  assert (E : forall a,
             holds m (Eq (Sum (line a)) (IntVal (Z.of_nat (n / 2)))) = true
             <-> sum_upto n (fun b => m (name a b)) = Z.of_nat (n / 2)).
  { intros a. simpl. unfold symbol_line. rewrite map_map. simpl.
    unfold sum_upto. apply Z.eqb_eq. }
  split.
  - intros H a Ha. apply E, H. apply in_map_iff. exists (line a).
    split; [ reflexivity | ]. apply In_symbol_lines. now exists a.
  - intros H c Hc. apply in_map_iff in Hc as [l [<- Hl]].
    apply In_symbol_lines in Hl as [a [Ha ->]]. now apply E, H.
Qed.

Lemma window_sem (a i : nat) :
  i + 2 < n ->
  holds m (window (line a) i) = true <->
  ~ (m (name a i) = m (name a (i + 1)) /\
     m (name a (i + 1)) = m (name a (i + 2))).
Proof.
  intros H. unfold window. rewrite !nth_line by lia. simpl.
  rewrite andb_true_r, negb_true_iff, andb_false_iff, !Z.eqb_neq. lia.
Qed.

Lemma triplet_assertions_sem :
  satisfies m (triplet_assertions (symbol_lines name n) n) = true <->
  (forall a i, a < n -> i < n - 2 ->
     ~ (m (name a i) = m (name a (i + 1)) /\
        m (name a (i + 1)) = m (name a (i + 2)))).
Proof.
  unfold satisfies, triplet_assertions. rewrite forallb_forall. split.
  - intros H a i Ha Hi. apply window_sem; [ lia | ]. apply H.
    apply in_flat_map. exists (line a). split.
    + apply In_symbol_lines. now exists a.
    + apply in_map_iff. exists i. now rewrite In_range.
  - intros H c Hc. apply in_flat_map in Hc as [l [Hl Hc]].
    apply In_symbol_lines in Hl as [a [Ha ->]].
    apply in_map_iff in Hc as [i [<- Hi]]. apply In_range in Hi.
    apply window_sem; [ lia | ]. now apply H.
Qed.

End Lines.

Section Unique.

Variable name : nat -> nat -> position.
Variable n : nat.
Variable m : Model.

Local Abbreviation line := (symbol_line name n).

Hypothesis n_positive : 0 < n.
Hypothesis name_injective : forall a a', name a 0 = name a' 0 -> a = a'.

Lemma list_eq_refl (f : nat -> position) (l : list nat) :
  list_eq (map (fun b => Int (f b)) l) (map (fun b => Int (f b)) l) = true.
Proof.
  induction l as [ | b l IH]; simpl; [ reflexivity | ].
  rewrite IH, andb_true_r. now apply position_eqb_eq.
Qed.

Lemma list_eq_line (a a' : nat) :
  list_eq (line a) (line a') = true <-> a = a'.
Proof.
  split.
  - unfold symbol_line, range. destruct n as [ | k]; [ lia | ]. simpl.
    rewrite andb_true_iff. intros [E _].
    apply position_eqb_eq in E. now apply name_injective.
  - intros ->. apply list_eq_refl.
Qed.

Lemma combine_map_same (A B C : Type) (f : A -> B) (g : A -> C) (l : list A) :
  combine (map f l) (map g l) = map (fun a => (f a, g a)) l.
Proof. induction l as [ | a l IH]; simpl; [ | rewrite IH ]; reflexivity. Qed.

Lemma equal_pair_sem (a a' : nat) :
  holds m (And (map (fun ab => Eq (fst ab) (snd ab))
                    (combine (line a) (line a')))) = true <->
  (forall b, b < n -> m (name a b) = m (name a' b)).
Proof.
  unfold symbol_line. rewrite combine_map_same, map_map. simpl.
  rewrite forallb_forall. split.
  - intros H b Hb. apply Z.eqb_eq.
    apply (H (Eq (Int (name a b)) (Int (name a' b)))).
    apply in_map_iff. exists b. now rewrite In_range.
  - intros H c Hc. apply in_map_iff in Hc as [b [<- Hb]].
    apply In_range in Hb. simpl. apply Z.eqb_eq. now apply H.
Qed.

Lemma In_equal_pairs (c : BoolRef) :
  In c (equal_pairs (symbol_lines name n)) <->
  exists a a',
    a < n /\ a' < n /\ a <> a' /\
    c = And (map (fun ab => Eq (fst ab) (snd ab))
                 (combine (line a) (line a'))).
Proof.
  unfold equal_pairs. rewrite in_flat_map. split.
  - intros [la [Ha H]]. apply in_flat_map in H as [lb [Hb H]].
    apply In_symbol_lines in Ha as [a [Ha ->]].
    apply In_symbol_lines in Hb as [a' [Ha' ->]].
    fold (line a) in H. fold (line a') in H.
    destruct (list_eq (line a) (line a')) eqn:E; simpl in H; [ tauto | ].
    destruct H as [<- | []].
    exists a, a'. repeat split; try assumption.
    intros <-. assert (T : list_eq (line a) (line a) = true)
      by now apply list_eq_line.
    congruence.
  - intros [a [a' [Ha [Ha' [D ->]]]]].
    exists (line a). split; [ apply In_symbol_lines; now exists a | ].
    apply in_flat_map. exists (line a').
    split; [ apply In_symbol_lines; now exists a' | ].
    destruct (list_eq (line a) (line a')) eqn:E; simpl; [ | now left ].
    apply list_eq_line in E. contradiction.
Qed.

Lemma unique_assertion_sem :
  holds m (Not (Or (equal_pairs (symbol_lines name n)))) = true <->
  (forall a a', a < n -> a' < n -> a <> a' ->
     exists b, b < n /\ m (name a b) <> m (name a' b)).
Proof.
  simpl. rewrite negb_true_iff. split.
  - intros H a a' Ha Ha' D.
    destruct (forallb (fun b => (m (name a b) =? m (name a' b))%Z) (range n))
      eqn:E.
    + exfalso.
      assert (T : existsb (holds m) (equal_pairs (symbol_lines name n)) = true);
        [ | congruence ].
      apply existsb_exists. eexists. split.
      * apply In_equal_pairs. exists a, a'. repeat split; eassumption.
      * apply equal_pair_sem. intros b Hb. apply Z.eqb_eq.
        rewrite forallb_forall in E. apply E. now apply In_range.
    + apply forallb_false_exists in E as [b [Hb E]].
      exists b. apply In_range in Hb. now apply Z.eqb_neq in E.
  - intros H. apply not_true_is_false. intros T.
    apply existsb_exists in T as [c [Hc T]].
    apply In_equal_pairs in Hc as [a [a' [Ha [Ha' [D ->]]]]].
    destruct (H a a' Ha Ha' D) as [b [Hb Nb]].
    apply Nb. now apply equal_pair_sem.
Qed.

Lemma lines_sem :
  (satisfies m (sum_assertions (symbol_lines name n) n) = true /\
   holds m (Not (Or (equal_pairs (symbol_lines name n)))) = true /\
   (2 < n -> satisfies m (triplet_assertions (symbol_lines name n) n) = true))
  <-> lines_ok n (fun a b => m (name a b)).
Proof.
  unfold lines_ok.
  rewrite sum_assertions_sem, unique_assertion_sem, triplet_assertions_sem.
  tauto.
Qed.

End Unique.

Lemma satisfies_single (m : Model) (c : BoolRef) :
  satisfies m [c] = holds m c.
Proof. unfold satisfies; simpl. apply andb_true_r. Qed.

Lemma asserted_sem (self : BinaryPuzzle) (m : Model) :
  0 < size self ->
  satisfies m (asserted self) = true <-> model_ok self m.
Proof.
  intros P. unfold asserted, model_ok. cbv zeta.
  set (n := size self) in *.
  rewrite !satisfies_app, !satisfies_single, !andb_true_iff.
  rewrite value_assertions_sem, domain_assertions_sem. fold n.
  rewrite <- (lines_sem (fun x y => (x, y)) n m P)
    by (intros a a' [= ->]; reflexivity).
  rewrite <- (lines_sem (fun y x => (x, y)) n m P)
    by (intros a a' [= ->]; reflexivity).
  fold (row_symbols n). fold (column_symbols n).
  destruct (Nat.ltb_spec 2 n) as [L | L].
  - rewrite satisfies_app, andb_true_iff. tauto.
  - assert (~ 2 < n) by lia. unfold satisfies at 7. simpl. tauto.
Qed.

(** ** Reading the model *)

Lemma length_cell_lines (f : nat -> nat -> Z) (n : nat) :
  length (cell_lines f n) = n.
Proof. unfold cell_lines. now rewrite length_map, length_range. Qed.

Lemma In_cell_lines (f : nat -> nat -> Z) (n : nat) (line : list cell) :
  In line (cell_lines f n) <->
  exists a, a < n /\ line = map (fun b => Some (f a b)) (range n).
Proof.
  unfold cell_lines. rewrite in_map_iff. split.
  - intros [a [<- Ha]]. exists a. now rewrite In_range in Ha.
  - intros [a [Ha ->]]. exists a. now rewrite In_range.
Qed.

Lemma nth_error_cell_lines (f : nat -> nat -> Z) (n a : nat) :
  a < n ->
  nth_error (cell_lines f n) a = Some (map (fun b => Some (f a b)) (range n)).
Proof.
  intros H. unfold cell_lines. rewrite nth_error_map_range.
  apply Nat.ltb_lt in H. now rewrite H.
Qed.

Lemma shaped_puzzle_of (m : Model) (n : nat) : shaped (puzzle_of m n).
Proof.
  split; simpl.
  - apply length_cell_lines.
  - apply Forall_forall. intros row H.
    apply In_cell_lines in H as [a [_ ->]].
    now rewrite length_map, length_range.
Qed.

Lemma cell_at_puzzle_of (m : Model) (n x y : nat) :
  x < n -> y < n -> cell_at (puzzle_of m n) x y = Some (m (x, y)).
Proof.
  intros Hx Hy. unfold cell_at; simpl.
  rewrite (nth_error_nth _ _ [] (nth_error_cell_lines _ _ _ Hx)).
  apply nth_error_nth. rewrite nth_error_map_range.
  apply Nat.ltb_lt in Hy. now rewrite Hy.
Qed.

Lemma puzzle_at_puzzle_of (m : Model) (n x y : nat) :
  x < n -> y < n -> puzzle_at (puzzle_of m n) x y = Ok (Some (m (x, y))).
Proof.
  intros Hx Hy.
  rewrite (puzzle_at_shaped _ _ _ (shaped_puzzle_of m n)) by assumption.
  now rewrite cell_at_puzzle_of.
Qed.

Lemma columns_puzzle_of (m : Model) (n : nat) :
  columns (puzzle_of m n) = Ok (cell_lines (fun y x => m (x, y)) n).
Proof.
  unfold columns, cell_lines. simpl.
  apply mapM_map; intros y Hy. apply mapM_map; intros x Hx.
  apply In_range in Hx, Hy. now apply puzzle_at_puzzle_of.
Qed.

Lemma length_concat_uniform (A : Type) (l : list (list A)) (n : nat) :
  Forall (fun row => length row = n) l -> length (concat l) = length l * n.
Proof.
  induction 1 as [ | row l H _ IH]; simpl; [ reflexivity | ].
  rewrite length_app, IH, H. reflexivity.
Qed.

Lemma read_model_eq (self : BinaryPuzzle) (m : Model) :
  read_model self m = construct (cell_lines (fun x y => m (x, y)) (size self)).
Proof.
  unfold read_model. cbv zeta.
  rewrite (mapM_map _ _ _ (fun x => map (fun y => Some (m (x, y)))
                                        (range (size self)))).
  - reflexivity.
  - intros x Hx. apply mapM_map; intros y Hy.
    unfold make_symbols. rewrite map_map. simpl.
    rewrite (dict_get_comprehension _ m).
    + reflexivity.
    + apply In_positions. now rewrite In_range in Hx, Hy.
Qed.

Lemma construct_puzzle_of (m : Model) (n : nat) :
  0 < n -> n mod 2 = 0 ->
  (forall x y, x < n -> y < n -> m (x, y) = 0%Z \/ m (x, y) = 1%Z) ->
  construct (cell_lines (fun x y => m (x, y)) n) = Ok (puzzle_of m n).
Proof.
  intros P E D.
  pose proof (shaped_puzzle_of m n) as [L R]. simpl in L, R.
  unfold puzzle_of.
  rewrite construct_Ok; [ now rewrite L | | | | ].
  - rewrite L. lia.
  - rewrite (length_concat_uniform _ _ n R), L. simpl. lia.
  - now rewrite L.
  - apply forallb_forall; intros row Hrow.
    apply In_cell_lines in Hrow as [x [Hx ->]].
    apply forallb_forall; intros value Hvalue.
    apply in_map_iff in Hvalue as [y [<- Hy]]. apply In_range in Hy.
    apply value_in_spec. destruct (D x y Hx Hy) as [-> | ->]; auto.
Qed.

(** ** The rules on the lines of a grid read off a model *)

Section CellLines.

Variable n : nat.
Hypothesis n_even : n mod 2 = 0.

Lemma count_line (g : nat -> Z) (l : list nat) :
  (forall b, In b l -> g b = 0%Z \/ g b = 1%Z) ->
  Z.of_nat (Rules.count (Some 1%Z) (map (fun b => Some (g b)) l))
  = fold_right Z.add 0%Z (map g l) /\
  Rules.count (Some 0%Z) (map (fun b => Some (g b)) l)
  + Rules.count (Some 1%Z) (map (fun b => Some (g b)) l) = length l.
Proof.
  unfold Rules.count.
  induction l as [ | b l IH]; intros D; [ split; reflexivity | ].
  destruct IH as [IH1 IH2]; [ intros; apply D; now right | ].
  cbn [map fold_right length].
  destruct (D b (or_introl eq_refl)) as [E | E]; rewrite E.
  - rewrite (count_occ_cons_neq cell_eq_dec _ (x := Some 0%Z) (y := Some 1%Z))
      by discriminate.
    rewrite (count_occ_cons_eq cell_eq_dec _ (x := Some 0%Z) (y := Some 0%Z))
      by reflexivity.
    split; lia.
  - rewrite (count_occ_cons_eq cell_eq_dec _ (x := Some 1%Z) (y := Some 1%Z))
      by reflexivity.
    rewrite (count_occ_cons_neq cell_eq_dec _ (x := Some 1%Z) (y := Some 0%Z))
      by discriminate.
    split; lia.
Qed.

Lemma balanced_line (g : nat -> Z) :
  (forall b, b < n -> g b = 0%Z \/ g b = 1%Z) ->
  Rules.balanced n (cell_line n g) <-> sum_upto n g = Z.of_nat (n / 2).
Proof.
  intros D. unfold Rules.balanced, sum_upto, cell_line.
  destruct (count_line g (range n)) as [C1 C2].
  { intros b Hb. apply D. now apply In_range. }
  rewrite length_range in C2.
  pose proof (Nat.div_mod_eq n 2) as DM.
  split.
  - intros [_ H1]. rewrite <- C1, H1. reflexivity.
  - intros H. rewrite <- C1 in H. apply Nat2Z.inj in H. lia.
Qed.

Lemma has_triple_line (g : nat -> Z) :
  Rules.has_triple (cell_line n g) <->
  exists i, i + 2 < n /\ g i = g (i + 1) /\ g (i + 1) = g (i + 2).
Proof.
  unfold Rules.has_triple, cell_line. split.
  - intros [i [v [H0 [H1 H2]]]]. rewrite nth_error_map_range in H0, H1, H2.
    destruct (Nat.ltb_spec (i + 2) n) as [L | L]; [ | discriminate ].
    destruct (Nat.ltb_spec (i + 1) n) as [_ | ]; [ | lia ].
    destruct (Nat.ltb_spec i n) as [_ | ]; [ | lia ].
    exists i. split; [ exact L | ]. split; congruence.
  - intros [i [L [E1 E2]]]. exists i, (Some (g i)).
    rewrite !nth_error_map_range.
    destruct (Nat.ltb_spec (i + 2) n) as [_ | ]; [ | lia ].
    destruct (Nat.ltb_spec (i + 1) n) as [_ | ]; [ | lia ].
    destruct (Nat.ltb_spec i n) as [_ | ]; [ | lia ].
    split; [ reflexivity | ].
    split; [ now rewrite <- E1 | now rewrite <- E2, <- E1 ].
Qed.

Lemma differ_line (g g' : nat -> Z) :
  Rules.differ (cell_line n g) (cell_line n g') <->
  exists b, b < n /\ g b <> g' b.
Proof.
  unfold Rules.differ, cell_line. split.
  - intros [i [a [b [Ha [Hb D]]]]]. rewrite nth_error_map_range in Ha, Hb.
    destruct (Nat.ltb_spec i n) as [L | ]; [ | discriminate ].
    exists i. split; [ exact L | ]. congruence.
  - intros [b [L D]]. exists b, (Some (g b)), (Some (g' b)).
    rewrite !nth_error_map_range. apply Nat.ltb_lt in L. rewrite L.
    repeat split. congruence.
Qed.

Lemma pairwise_distinct_cell_lines (f : nat -> nat -> Z) :
  Rules.pairwise_distinct (cell_lines f n) <->
  (forall a a', a < n -> a' < n -> a <> a' ->
     exists b, b < n /\ f a b <> f a' b).
Proof.
  unfold Rules.pairwise_distinct. split.
  - intros H a a' Ha Ha' D. apply differ_line.
    apply (H a a'); [ exact D | | ]; now apply nth_error_cell_lines.
  - intros H i j la lb D Ha Hb.
    assert (Li : i < n).
    { rewrite <- (length_cell_lines f n). apply nth_error_Some. congruence. }
    assert (Lj : j < n).
    { rewrite <- (length_cell_lines f n). apply nth_error_Some. congruence. }
    rewrite nth_error_cell_lines in Ha, Hb by assumption.
    injection Ha as <-. injection Hb as <-.
    apply differ_line. now apply H.
Qed.

Lemma lines_ok_grid (f : nat -> nat -> Z) :
  (forall a b, a < n -> b < n -> f a b = 0%Z \/ f a b = 1%Z) ->
  lines_ok n f <->
  (forall l, In l (cell_lines f n) -> Rules.balanced n l) /\
  (forall l, In l (cell_lines f n) -> ~ Rules.has_triple l) /\
  Rules.pairwise_distinct (cell_lines f n).
Proof.
  intros D. unfold lines_ok. rewrite pairwise_distinct_cell_lines.
  split.
  - intros [S [U T]]. split; [ | split; [ | exact U ] ].
    + intros l Hl. apply In_cell_lines in Hl as [a [Ha ->]].
      apply balanced_line; [ intros; now apply D | now apply S ].
    + intros l Hl. apply In_cell_lines in Hl as [a [Ha ->]].
      intros X. apply has_triple_line in X as [i [L [E1 E2]]].
      apply (T ltac:(lia) a i Ha ltac:(lia)). now split.
  - intros [B [T U]]. split; [ | split; [ exact U | ] ].
    + intros a Ha. apply balanced_line; [ intros; now apply D | ].
      apply B. apply In_cell_lines. now exists a.
    + intros L a i Ha Hi [E1 E2].
      apply (T (cell_line n (f a))); [ apply In_cell_lines; now exists a | ].
      apply has_triple_line. exists i. split; [ lia | now split ].
Qed.

End CellLines.

(** ** Models and completions *)

Lemma puzzle_at_Ok_inv (self : BinaryPuzzle) (x y : nat) (value : cell) :
  shaped self ->
  puzzle_at self x y = Ok value ->
  x < size self /\ y < size self /\ value = cell_at self x y.
Proof.
  intros [L R] H. unfold puzzle_at, getitem in H.
  destruct (nth_error (_puzzle self) x) as [row | ] eqn:Ex;
    simpl in H; [ | discriminate ].
  destruct (nth_error row y) as [c | ] eqn:Ey; [ | discriminate ].
  injection H as ->.
  assert (Hx : x < size self).
  { rewrite <- L. apply nth_error_Some. congruence. }
  assert (Hrow : length row = size self).
  { rewrite Forall_forall in R. apply R. eapply nth_error_In; eassumption. }
  assert (Hy : y < size self).
  { rewrite <- Hrow. apply nth_error_Some. congruence. }
  repeat split; try assumption.
  unfold cell_at. rewrite (nth_error_nth _ _ [] Ex).
  symmetry. now apply nth_error_nth.
Qed.

Lemma map_constant (A : Type) (f : A -> nat) (n : nat) (l : list A) :
  Forall (fun a => f a = n) l -> map f l = repeat n (length l).
Proof.
  induction 1 as [ | a l H _ IH]; simpl; [ reflexivity | ].
  now rewrite H, IH.
Qed.

Lemma shaped_lengths (self : BinaryPuzzle) :
  shaped self <->
  map (@length cell) (_puzzle self) = repeat (size self) (size self).
Proof.
  split.
  - intros [L R]. rewrite (map_constant _ _ _ _ R). now rewrite L.
  - intros H. split.
    + apply (f_equal (@length nat)) in H.
      now rewrite length_map, repeat_length in H.
    + apply Forall_forall. intros row Hrow.
      apply (in_map (@length cell)) in Hrow. rewrite H in Hrow.
      now apply repeat_spec in Hrow.
Qed.

Lemma fully_assigned_puzzle_of (m : Model) (n : nat) :
  Rules.fully_assigned (puzzle_of m n) <->
  (forall x y, x < n -> y < n -> m (x, y) = 0%Z \/ m (x, y) = 1%Z).
Proof.
  unfold Rules.fully_assigned. rewrite rows_puzzle. simpl.
  rewrite Forall_forall. split.
  - intros H x y Hx Hy.
    specialize (H (map (fun b => Some (m (x, b))) (range n))).
    rewrite Forall_forall in H.
    destruct (H ltac:(apply In_cell_lines; now exists x) (Some (m (x, y))))
      as [[= ->] | [= ->]]; auto.
    apply in_map_iff. exists y. now rewrite In_range.
  - intros H row Hrow. apply In_cell_lines in Hrow as [x [Hx ->]].
    apply Forall_forall. intros value Hvalue.
    apply in_map_iff in Hvalue as [y [<- Hy]]. apply In_range in Hy.
    destruct (H x y Hx Hy) as [-> | ->]; auto.
Qed.

Lemma obeys_puzzle_of (m : Model) (n : nat) :
  n mod 2 = 0 ->
  Rules.obeys (puzzle_of m n) <->
  (forall x y, x < n -> y < n -> m (x, y) = 0%Z \/ m (x, y) = 1%Z) /\
  lines_ok n (fun x y => m (x, y)) /\
  lines_ok n (fun y x => m (x, y)).
Proof.
  intros E. unfold Rules.obeys.
  rewrite fully_assigned_puzzle_of, rows_puzzle, columns_puzzle_of.
  simpl _puzzle. change (size (puzzle_of m n)) with n.
  split.
  - intros [D [cols [[= <-] [B [T [UR UC]]]]]].
    split; [ exact D | ].
    split; apply (lines_ok_grid n E).
    + intros; now apply D.
    + split; [ | split; [ | assumption ] ]; intros l Hl;
        [ apply B | apply T ]; apply in_or_app; now left.
    + intros; now apply D.
    + split; [ | split; [ | assumption ] ]; intros l Hl;
        [ apply B | apply T ]; apply in_or_app; now right.
  - intros [D [LR LC]]. split; [ exact D | ].
    apply (lines_ok_grid n E) in LR; [ | intros; now apply D ].
    apply (lines_ok_grid n E) in LC; [ | intros; now apply D ].
    destruct LR as [BR [TR UR]]. destruct LC as [BC [TC UC]].
    eexists. split; [ reflexivity | ].
    split; [ | split; [ | split; assumption ] ];
      intros l Hl; apply in_app_or in Hl as [Hl | Hl]; auto.
Qed.

Lemma completes_puzzle_of (self : BinaryPuzzle) (m : Model) :
  shaped self ->
  (forall x y, x < size self -> y < size self ->
               m (x, y) = 0%Z \/ m (x, y) = 1%Z) ->
  Rules.completes self (puzzle_of m (size self)) <->
  (forall x y v, x < size self -> y < size self ->
                 cell_at self x y = Some v -> m (x, y) = v).
Proof.
  intros S D. unfold Rules.completes. split.
  - intros [_ [_ H]] x y v Hx Hy C.
    specialize (H x y (Some v)). simpl in H.
    rewrite puzzle_at_shaped, C in H by assumption.
    specialize (H eq_refl).
    rewrite puzzle_at_puzzle_of in H by assumption. congruence.
  - intros V. split; [ reflexivity | ]. split.
    + rewrite !rows_puzzle.
      rewrite (proj1 (shaped_lengths self) S).
      apply (shaped_lengths (puzzle_of m (size self))), shaped_puzzle_of.
    + intros x y value H.
      apply (puzzle_at_Ok_inv _ _ _ _ S) in H as [Hx [Hy ->]].
      rewrite puzzle_at_puzzle_of by assumption.
      destruct (cell_at self x y) as [v | ] eqn:C.
      * now rewrite (V x y v Hx Hy C).
      * destruct (D x y Hx Hy) as [-> | ->]; auto.
Qed.

Lemma model_ok_iff (self : BinaryPuzzle) (m : Model) :
  shaped self -> size self mod 2 = 0 ->
  model_ok self m <->
  Rules.completes self (puzzle_of m (size self)) /\
  Rules.obeys (puzzle_of m (size self)).
Proof.
  intros S E. unfold model_ok. cbv zeta. rewrite (obeys_puzzle_of _ _ E).
  split.
  - intros [V [D [LR LC]]]. split; [ | tauto ].
    now apply completes_puzzle_of.
  - intros [C [D [LR LC]]]. split; [ | tauto ].
    now apply (completes_puzzle_of self m S D).
Qed.

Lemma puzzle_of_model_from (g : BinaryPuzzle) :
  shaped g -> Rules.fully_assigned g -> g = puzzle_of (model_from g) (size g).
Proof.
  intros [L R] F. destruct g as [puzzle n]. unfold puzzle_of, size in *.
  simpl in *. f_equal.
  unfold Rules.fully_assigned in F. rewrite rows_puzzle in F. simpl in F.
  rewrite Forall_forall in R, F.
  apply nth_error_ext. intros x.
  destruct (Nat.lt_ge_cases x n) as [Hx | Hx].
  - rewrite nth_error_cell_lines by exact Hx.
    destruct (nth_error puzzle x) as [row | ] eqn:Ex.
    2:{ apply nth_error_None in Ex. lia. }
    f_equal. pose proof (nth_error_In _ _ Ex) as Hrow.
    specialize (R row Hrow). specialize (F row Hrow).
    rewrite Forall_forall in F.
    apply nth_error_ext. intros y. rewrite nth_error_map_range.
    destruct (Nat.ltb_spec y n) as [Hy | Hy].
    + destruct (nth_error row y) as [c | ] eqn:Ey.
      2:{ apply nth_error_None in Ey. lia. }
      f_equal. unfold model_from, cell_at. simpl.
      rewrite (nth_error_nth _ _ [] Ex), (nth_error_nth _ _ N Ey).
      destruct (F c (nth_error_In _ _ Ey)) as [-> | ->]; reflexivity.
    + apply nth_error_None. unfold cell in *. rewrite R. exact Hy.
  - rewrite (proj2 (nth_error_None _ _)) by lia.
    symmetry. apply nth_error_None. rewrite length_cell_lines. lia.
Qed.

(** ** Only square puzzles reach the solver *)

Lemma foldM_Ok_inv (A S : Type) (f : S -> A -> result S) (l : list A)
    (s s' : S) :
  foldM f l s = Ok s' ->
  forall a, In a l -> exists s1 s2, f s1 a = Ok s2.
Proof.
  revert s; induction l as [ | b l IH]; simpl; intros s H a Ha; [ tauto | ].
  apply bind_Ok_inv in H as [s1 [H1 H2]].
  destruct Ha as [<- | Ha].
  - now exists s, s1.
  - now apply (IH s1).
Qed.

Lemma uniform_lengths (A : Type) (l : list (list A)) (n : nat) :
  Forall (fun row => n <= length row) l ->
  length (concat l) = length l * n ->
  Forall (fun row => length row = n) l.
Proof.
  induction 1 as [ | row l H F IH]; simpl; intros E; [ constructor | ].
  rewrite length_app in E.
  assert (G : length l * n <= length (concat l)).
  { clear - F. induction F as [ | r l H _ IH]; simpl; [ lia | ].
    rewrite length_app. lia. }
  constructor; [ lia | apply IH; lia ].
Qed.

Lemma constructed_size (puzzle : list (list cell)) (g : BinaryPuzzle) :
  construct puzzle = Ok g ->
  length (_puzzle g) = size g /\ 0 < size g /\ size g mod 2 = 0 /\
  length (concat (_puzzle g)) = size g * size g.
Proof.
  intros C. apply construct_Ok_inv in C as [-> [H0 [H1 [H2 _]]]].
  unfold size; simpl. rewrite Nat.pow_2_r in H1.
  repeat split; try assumption; lia.
Qed.

Lemma square_shaped (puzzle : list (list cell)) (g : BinaryPuzzle) :
  construct puzzle = Ok g -> Rules.square g <-> shaped g.
Proof.
  intros C. apply constructed_size in C as [L _].
  unfold Rules.square, shaped. rewrite rows_puzzle. tauto.
Qed.

Lemma mapM_Ok_inv (A B : Type) (f : A -> result B) (l : list A)
    (bs : list B) :
  mapM f l = Ok bs -> forall a, In a l -> exists b, f a = Ok b.
Proof.
  revert bs; induction l as [ | a' l IH]; simpl; intros bs H a Ha; [ tauto | ].
  apply bind_Ok_inv in H as [b [H1 H]].
  apply bind_Ok_inv in H as [bs' [H2 _]].
  destruct Ha as [<- | Ha]; [ now exists b | now apply (IH bs') ].
Qed.

Lemma cells_shaped (puzzle : list (list cell)) (g : BinaryPuzzle) :
  construct puzzle = Ok g ->
  (forall x y, x < size g -> y < size g -> exists v, puzzle_at g x y = Ok v) ->
  shaped g.
Proof.
  intros C V. apply constructed_size in C as [L [_ [_ T]]].
  split; [ exact L | ].
  apply uniform_lengths; [ | now rewrite L ].
  apply Forall_forall. intros row Hrow.
  apply In_nth_error in Hrow as [x Hx].
  assert (Lx : x < size g).
  { rewrite <- L. apply nth_error_Some. congruence. }
  destruct (Nat.le_gt_cases (size g) (length row)) as [ | Short];
    [ assumption | exfalso ].
  destruct (V x (length row) Lx Short) as [v B].
  unfold puzzle_at, getitem in B. rewrite Hx in B. simpl in B.
  rewrite (proj2 (nth_error_None row (length row))) in B by lia.
  discriminate.
Qed.

Lemma assertions_Ok_shaped (puzzle : list (list cell)) (g : BinaryPuzzle)
    (solver : list BoolRef) :
  construct puzzle = Ok g -> assertions g = Ok solver -> shaped g.
Proof.
  intros C H. apply (cells_shaped _ _ C). intros x y Hx Hy.
  unfold assertions in H. cbv zeta in H.
  apply bind_Ok_inv in H as [rs [_ H]].
  apply bind_Ok_inv in H as [cs [_ H]].
  apply bind_Ok_inv in H as [s [H _]].
  unfold add_values in H.
  destruct (foldM_Ok_inv _ _ _ _ _ _ H (x, y)) as [s1 [s2 B]].
  { now apply In_positions. }
  apply bind_Ok_inv in B as [value [B _]]. now exists value.
Qed.

Lemma columns_Ok_shaped (puzzle : list (list cell)) (g : BinaryPuzzle)
    (cols : list (list cell)) :
  construct puzzle = Ok g -> columns g = Ok cols -> shaped g.
Proof.
  intros C H. apply (cells_shaped _ _ C). intros x y Hx Hy.
  unfold columns in H.
  destruct (mapM_Ok_inv _ _ _ _ _ H y) as [col K];
    [ now apply In_range | ].
  apply (mapM_Ok_inv _ _ _ _ _ K x). now apply In_range.
Qed.

Lemma foldM_Ok_or_Raise (A S : Type) (f : S -> A -> result S) (e : exception)
    (l : list A) :
  (forall a s, In a l -> (exists s', f s a = Ok s') \/ f s a = Raise e) ->
  forall s, (exists s', foldM f l s = Ok s') \/ foldM f l s = Raise e.
Proof.
  induction l as [ | a l IH]; simpl; intros H s.
  - left. now exists s.
  - destruct (H a s (or_introl eq_refl)) as [[s' ->] | ->]; simpl.
    + apply IH. intros; apply H; now right.
    + now right.
Qed.

Lemma puzzle_at_Ok_or_IndexError (g : BinaryPuzzle) (x y : nat) :
  (exists v, puzzle_at g x y = Ok v) \/ puzzle_at g x y = Raise IndexError.
Proof.
  unfold puzzle_at, getitem.
  destruct (nth_error (_puzzle g) x) as [row | ]; simpl; [ | now right ].
  destruct (nth_error row y) as [v | ]; [ left; now exists v | now right ].
Qed.

Lemma assertions_Ok_or_IndexError (g : BinaryPuzzle) :
  (exists solver, assertions g = Ok solver) \/
  assertions g = Raise IndexError.
Proof.
  unfold assertions. cbv zeta.
  rewrite symbol_rows_eq, symbol_columns_eq. simpl.
  destruct (foldM_Ok_or_Raise _ _
              (fun solver pos =>
                 let '(x, y) := pos in
                 value <- puzzle_at g x y ;;
                 match value with
                 | None => Ok solver
                 | Some v =>
                     symbol <- dict_get (make_symbols g) (x, y) ;;
                     Ok (add solver (Eq symbol (IntVal v)))
                 end)
              IndexError (positions g)) with (s := @nil BoolRef)
    as [[s H] | H].
  - intros [x y] s Hp.
    destruct (puzzle_at_Ok_or_IndexError g x y) as [[v ->] | ->]; simpl;
      [ left | now right ].
    destruct v as [v | ]; [ | now exists s ].
    unfold make_symbols. rewrite (dict_get_comprehension _ Int _ _ Hp).
    simpl. eauto.
  - left. unfold add_values. rewrite H. simpl.
    destruct (2 <? size g); [ | eauto ].
    rewrite add_triplets_eq by apply symbol_lines_length. simpl.
    rewrite add_triplets_eq by apply symbol_lines_length. eauto.
  - right. unfold add_values. now rewrite H.
Qed.

(** A constructed puzzle that is not square makes [solve] raise
    [IndexError]. *)
Lemma solve_not_square (check : list BoolRef -> option Model)
    (puzzle : list (list cell)) (g : BinaryPuzzle) :
  construct puzzle = Ok g ->
  ~ Rules.square g ->
  solve check g = Raise IndexError.
Proof.
  intros C Q. unfold solve.
  destruct (assertions_Ok_or_IndexError g) as [[solver A] | ->];
    [ exfalso | reflexivity ].
  apply Q. apply (square_shaped _ _ C).
  now apply (assertions_Ok_shaped _ _ _ C A).
Qed.

(** ** The result of solve *)

Lemma solve_shaped (check : list BoolRef -> option Model) (g : BinaryPuzzle) :
  shaped g ->
  solve check g = match check (asserted g) with
                  | None => Raise UnsolvablePuzzleError
                  | Some m => read_model g m
                  end.
Proof. intros S. unfold solve. now rewrite (assertions_shaped g S). Qed.

Lemma read_model_ok (g : BinaryPuzzle) (m : Model) :
  0 < size g -> size g mod 2 = 0 -> model_ok g m ->
  read_model g m = Ok (puzzle_of m (size g)).
Proof.
  intros P E [_ [D _]]. rewrite read_model_eq.
  now apply construct_puzzle_of.
Qed.

Lemma solve_Ok_inv (check : list BoolRef -> option Model)
    (puzzle : list (list cell)) (g g' : BinaryPuzzle) :
  sound check ->
  construct puzzle = Ok g ->
  solve check g = Ok g' ->
  shaped g /\
  exists m,
    check (asserted g) = Some m /\ model_ok g m /\ g' = puzzle_of m (size g).
Proof.
  intros Sound C H.
  destruct (constructed_size _ _ C) as [_ [P [E _]]].
  unfold solve in H. apply bind_Ok_inv in H as [solver [A H]].
  pose proof (assertions_Ok_shaped _ _ _ C A) as S.
  split; [ exact S | ].
  rewrite (assertions_shaped g S) in A. injection A as <-.
  destruct (check (asserted g)) as [m | ] eqn:K; [ | discriminate ].
  exists m. split; [ reflexivity | ].
  assert (M : model_ok g m)
    by (apply asserted_sem; [ exact P | now apply Sound ]).
  split; [ exact M | ].
  rewrite (read_model_ok g m P E M) in H. now injection H as <-.
Qed.

Lemma solve_cases (check : list BoolRef -> option Model)
    (puzzle : list (list cell)) (g : BinaryPuzzle) :
  sound check ->
  construct puzzle = Ok g ->
  Rules.square g ->
  (exists m, check (asserted g) = Some m /\ model_ok g m /\
             solve check g = Ok (puzzle_of m (size g))) \/
  (check (asserted g) = None /\ solve check g = Raise UnsolvablePuzzleError).
Proof.
  intros Sound C Q.
  destruct (constructed_size _ _ C) as [_ [P [E _]]].
  apply (square_shaped _ _ C) in Q.
  rewrite (solve_shaped check g Q).
  destruct (check (asserted g)) as [m | ] eqn:K; [ left | right; now split ].
  exists m. split; [ reflexivity | ].
  assert (M : model_ok g m)
    by (apply asserted_sem; [ exact P | now apply Sound ]).
  split; [ exact M | now apply read_model_ok ].
Qed.

Lemma count_N_assigned (line : list cell) :
  Forall (fun value => value = Some 0%Z \/ value = Some 1%Z) line ->
  Rules.count N line = 0.
Proof.
  intros F. unfold Rules.count. apply count_occ_not_In. intros H.
  rewrite Forall_forall in F. destruct (F N H); discriminate.
Qed.

Lemma cell_lines_assigned (f : nat -> nat -> Z) (n : nat) :
  (forall a b, a < n -> b < n -> f a b = 0%Z \/ f a b = 1%Z) ->
  Forall (Forall (fun value => value = Some 0%Z \/ value = Some 1%Z))
         (cell_lines f n).
Proof.
  intros D. apply Forall_forall. intros line H.
  apply In_cell_lines in H as [a [Ha ->]].
  apply Forall_forall. intros value H.
  apply in_map_iff in H as [b [<- Hb]]. apply In_range in Hb.
  destruct (D a b Ha Hb) as [-> | ->]; auto.
Qed.

(** ** The exhaustive search meets what is assumed of z3 *)

Lemma puzzle_of_ext (m m' : Model) (n : nat) :
  (forall x y, x < n -> y < n -> m (x, y) = m' (x, y)) ->
  puzzle_of m n = puzzle_of m' n.
Proof.
  intros H. unfold puzzle_of, cell_lines. f_equal.
  apply map_ext_in; intros x Hx. apply map_ext_in; intros y Hy.
  apply In_range in Hx, Hy. now rewrite H.
Qed.

Lemma all_hold_satisfies (m : Model) (solver : list BoolRef) :
  Search.all_hold m solver = satisfies m solver.
Proof.
  induction solver as [ | c solver IH]; simpl; [ reflexivity | ].
  rewrite IH. now destruct (holds m c).
Qed.

Lemma search_sound : sound Search.check.
Proof.
  intros solver m H. unfold Search.check in H.
  destruct (find _ _) as [d | ] eqn:F; simpl in H; [ | discriminate ].
  injection H as <-. apply find_some in F as [_ F].
  now rewrite all_hold_satisfies in F.
Qed.

Lemma model_of_cons (v : position) (z : Z) (d : dict Z) (v' : position) :
  Search.model_of ((v, z) :: d) v'
  = if position_eqb v v' then z else Search.model_of d v'.
Proof.
  unfold Search.model_of, dict_get; simpl.
  now destruct (position_eqb v v').
Qed.

Lemma valuations_cover (m : Model) (vs : list position) :
  exists d,
    In d (Search.valuations vs) /\
    forall v, In v vs ->
              Search.model_of d v = if (m v =? 1)%Z then 1%Z else 0%Z.
Proof.
  induction vs as [ | v vs [d [Hd A]]]; simpl.
  - exists []. split; [ now left | tauto ].
  - exists ((v, if (m v =? 1)%Z then 1%Z else 0%Z) :: d). split.
    + apply in_flat_map. exists d. split; [ exact Hd | ].
      simpl. destruct (m v =? 1)%Z; auto.
    + intros v' H. rewrite model_of_cons.
      destruct (position_eqb v v') eqn:E.
      * apply position_eqb_eq in E. now subst.
      * destruct H as [-> | H]; [ | now apply A ].
        assert (position_eqb v' v' = true) by now apply position_eqb_eq.
        congruence.
Qed.

Lemma positions_constants (g : BinaryPuzzle) (v : position) :
  In v (positions g) ->
  In v (nodup Search.position_eq_dec
              (flat_map Search.constants_of (asserted g))).
Proof.
  intros H. apply nodup_In. apply in_flat_map.
  exists (Or [Eq (Int v) (IntVal 0%Z); Eq (Int v) (IntVal 1%Z)]).
  split; [ | simpl; now left ].
  unfold asserted. cbv zeta. do 5 (apply in_or_app; left).
  apply in_or_app; right. unfold domain_assertions.
  apply in_map_iff. now exists v.
Qed.

Lemma search_complete : complete Search.check.
Proof.
  intros puzzle g solver m C A Sat.
  pose proof (assertions_Ok_shaped _ _ _ C A) as S.
  destruct (constructed_size _ _ C) as [_ [P [E _]]].
  rewrite (assertions_shaped g S) in A. injection A as <-.
  apply (asserted_sem g m P) in Sat.
  unfold Search.check. cbv zeta.
  set (vs := nodup Search.position_eq_dec
                   (flat_map Search.constants_of (asserted g))).
  destruct (valuations_cover m vs) as [d [Hd A]].
  assert (Sat' : satisfies (Search.model_of d) (asserted g) = true).
  { apply (asserted_sem g _ P). apply (model_ok_iff g _ S E).
    rewrite (puzzle_of_ext (Search.model_of d) m).
    - now apply (model_ok_iff g m S E).
    - intros x y Hx Hy. rewrite A.
      + destruct Sat as [_ [D _]].
        destruct (D x y Hx Hy) as [-> | ->]; reflexivity.
      + apply positions_constants. now apply In_positions. }
  destruct (find (fun d => Search.all_hold (Search.model_of d) (asserted g))
                 (Search.valuations vs)) as [d' | ] eqn:F.
  - discriminate.
  - exfalso. pose proof (find_none _ _ F d Hd) as X. simpl in X.
    rewrite all_hold_satisfies in X. congruence.
Qed.

(** ** The solved puzzle *)

Lemma solve_Ok_obeys (check : list BoolRef -> option Model)
    (puzzle : list (list cell)) (g g' : BinaryPuzzle) :
  sound check ->
  construct puzzle = Ok g ->
  solve check g = Ok g' ->
  size g' = size g /\ Rules.completes g g' /\ Rules.obeys g'.
Proof.
  intros Sound C H.
  destruct (constructed_size _ _ C) as [_ [_ [E _]]].
  destruct (solve_Ok_inv _ _ _ _ Sound C H) as [S [m [_ [M ->]]]].
  split; [ reflexivity | ]. now apply model_ok_iff.
Qed.

(** C2: on the ragged puzzle [[0, 1, 0], [1]], which [construct] accepts,
    [solve] raises [IndexError] when it reads the cell at [(1, 1)],
    whatever z3 would answer. *)
Theorem solve_ragged_raises_IndexError :
  forall check : list BoolRef -> option Model,
  exists g,
    construct ragged_puzzle = Ok g /\
    puzzle_at g 1 1 = Raise IndexError /\
    solve check g = Raise IndexError.
Proof.
  intros check. eexists. split; [ reflexivity | ]. split; reflexivity.
Qed.

(** On a square puzzle [solve] returns a fully assigned puzzle or raises
    [UnsolvablePuzzleError]. *)
Lemma solve_square_total (check : list BoolRef -> option Model)
    (puzzle : list (list cell)) (g : BinaryPuzzle) :
  sound check ->
  construct puzzle = Ok g ->
  Rules.square g ->
  (exists g', solve check g = Ok g' /\ Rules.fully_assigned g') \/
  solve check g = Raise UnsolvablePuzzleError.
Proof.
  intros Sound C Q.
  destruct (solve_cases check _ _ Sound C Q) as [[m [_ [M H]]] | [_ H]];
    [ left | right; exact H ].
  exists (puzzle_of m (size g)). split; [ exact H | ].
  apply fully_assigned_puzzle_of. now destruct M as [_ [D _]].
Qed.

(** C3: when [solve] succeeds on a constructed puzzle, every cell of the
    puzzle that is not the unknown marker has the same value in the
    returned puzzle. *)
Theorem solve_keeps_clues :
  forall (check : list BoolRef -> option Model)
         (puzzle : list (list cell)) (g g' : BinaryPuzzle),
    sound check ->
    construct puzzle = Ok g ->
    solve check g = Ok g' ->
    forall r c value,
      puzzle_at g r c = Ok value ->
      value <> N ->
      puzzle_at g' r c = Ok value.
Proof.
  intros check puzzle g g' Sound C H r c value A NN.
  destruct (solve_Ok_obeys _ _ _ _ Sound C H) as [_ [[_ [_ K]] _]].
  specialize (K r c value A).
  destruct value as [v | ]; [ exact K | now elim NN ].
Qed.

(** C4: when [solve] succeeds on a constructed puzzle, every row and every
    column of the returned puzzle holds exactly [size/2] zeros, exactly
    [size/2] ones and no unknown marker. *)
Theorem solve_balanced :
  forall (check : list BoolRef -> option Model)
         (puzzle : list (list cell)) (g g' : BinaryPuzzle),
    sound check ->
    construct puzzle = Ok g ->
    solve check g = Ok g' ->
    size g' = size g /\
    exists cols,
      columns g' = Ok cols /\
      forall line,
        In line (rows g' ++ cols) ->
        Rules.count (Some 0%Z) line = size g' / 2 /\
        Rules.count (Some 1%Z) line = size g' / 2 /\
        Rules.count N line = 0.
Proof.
  intros check puzzle g g' Sound C H.
  destruct (constructed_size _ _ C) as [_ [_ [E _]]].
  destruct (solve_Ok_inv _ _ _ _ Sound C H) as [S [m [_ [M ->]]]].
  split; [ reflexivity | ].
  pose proof (proj2 (proj1 (model_ok_iff g m S E) M)) as [F [cols [Hc [B _]]]].
  exists cols. split; [ exact Hc | ]. intros line Hl.
  destruct (B line Hl) as [B0 B1]. split; [ exact B0 | ]. split; [ exact B1 | ].
  apply count_N_assigned.
  destruct M as [_ [D _]].
  rewrite columns_puzzle_of in Hc. injection Hc as <-.
  rewrite rows_puzzle in Hl. simpl in Hl.
  apply in_app_or in Hl as [Hl | Hl];
    eapply Forall_forall in Hl; try exact Hl;
    apply cell_lines_assigned; intros; now apply D.
Qed.

(** C5: when [solve] succeeds on a constructed puzzle of size above 2, no
    row and no column of the returned puzzle holds three consecutive equal
    values; and for a puzzle of size 2 none of the assertions handed to z3
    is an assertion of the no-triple rule. *)
Theorem solve_no_triple :
  forall (check : list BoolRef -> option Model)
         (puzzle : list (list cell)) (g : BinaryPuzzle),
    sound check ->
    construct puzzle = Ok g ->
    (2 < size g ->
     forall g',
       solve check g = Ok g' ->
       exists cols,
         columns g' = Ok cols /\
         forall line, In line (rows g' ++ cols) -> ~ Rules.has_triple line) /\
    (size g = 2 ->
     forall solver,
       assertions g = Ok solver ->
       Forall (fun c => ~ is_window c) solver).
Proof.
  intros check puzzle g Sound C. split.
  - intros _ g' H.
    destruct (solve_Ok_obeys _ _ _ _ Sound C H)
      as [_ [_ [_ [cols [Hc [_ [T _]]]]]]].
    exists cols. split; assumption.
  - intros Two solver A.
    pose proof (assertions_Ok_shaped _ _ _ C A) as S.
    rewrite (assertions_shaped g S) in A. injection A as <-.
    unfold asserted. cbv zeta. rewrite Two. simpl (2 <? 2).
    rewrite app_nil_r. apply Forall_forall. intros c Hc [a [b [c' ->]]].
    repeat (apply in_app_or in Hc as [Hc | Hc]).
    + unfold value_assertions in Hc.
      apply in_flat_map in Hc as [pos [_ Hc]].
      destruct (cell_at g (fst pos) (snd pos)); simpl in Hc;
        [ destruct Hc as [Hc | []]; discriminate | tauto ].
    + unfold domain_assertions in Hc.
      apply in_map_iff in Hc as [pos [Hc _]]. discriminate.
    + apply in_map_iff in Hc as [l [Hc _]]. discriminate.
    + apply in_map_iff in Hc as [l [Hc _]]. discriminate.
    + destruct Hc as [Hc | []]. discriminate.
    + destruct Hc as [Hc | []]. discriminate.
Qed.

(** C6: when [solve] succeeds on a constructed puzzle, any two distinct
    rows of the returned puzzle differ in at least one cell, and so do any
    two distinct columns. *)
Theorem solve_unique_lines :
  forall (check : list BoolRef -> option Model)
         (puzzle : list (list cell)) (g g' : BinaryPuzzle),
    sound check ->
    construct puzzle = Ok g ->
    solve check g = Ok g' ->
    Rules.pairwise_distinct (rows g') /\
    exists cols, columns g' = Ok cols /\ Rules.pairwise_distinct cols.
Proof.
  intros check puzzle g g' Sound C H.
  destruct (solve_Ok_obeys _ _ _ _ Sound C H)
    as [_ [_ [_ [cols [Hc [_ [_ [UR UC]]]]]]]].
  split; [ exact UR | ]. exists cols. split; assumption.
Qed.

(** ** Unsolvable and already solved puzzles *)

Lemma completes_shaped (g g' : BinaryPuzzle) :
  shaped g -> Rules.completes g g' -> shaped g'.
Proof.
  intros S [Z [L _]]. apply shaped_lengths.
  rewrite !rows_puzzle in L. rewrite L, Z. now apply shaped_lengths.
Qed.

Lemma solution_model (g g' : BinaryPuzzle) :
  shaped g -> size g mod 2 = 0 ->
  Rules.completes g g' -> Rules.obeys g' ->
  model_ok g (model_from g').
Proof.
  intros S E K O.
  pose proof (completes_shaped _ _ S K) as S'.
  pose proof (puzzle_of_model_from g' S' (proj1 O)) as G.
  destruct K as [Z K']. rewrite Z in G.
  apply (model_ok_iff g _ S E). rewrite <- G. split; [ | exact O ].
  split; assumption.
Qed.

Lemma unsolvable_iff_no_completion (check : list BoolRef -> option Model)
    (puzzle : list (list cell)) (g : BinaryPuzzle) :
  sound check -> complete check ->
  construct puzzle = Ok g ->
  Rules.square g ->
  solve check g = Raise UnsolvablePuzzleError <->
  ~ exists g', Rules.completes g g' /\ Rules.obeys g'.
Proof.
  intros Sound Complete C Q.
  destruct (constructed_size _ _ C) as [_ [P [E _]]].
  pose proof (proj1 (square_shaped _ _ C) Q) as S.
  destruct (solve_cases check _ _ Sound C Q) as [[m [_ [M H]]] | [K H]].
  - split.
    + rewrite H. discriminate.
    + intros No. exfalso. apply No. exists (puzzle_of m (size g)).
      now apply model_ok_iff.
  - split; [ | intros _; exact H ].
    intros _ [g' [K' O]].
    apply (Complete puzzle g (asserted g) (model_from g') C);
      [ now apply assertions_shaped | | exact K ].
    apply (asserted_sem g _ P). now apply solution_model.
Qed.

Lemma unsolvable_row (check : list BoolRef -> option Model)
    (puzzle : list (list cell)) (g : BinaryPuzzle) (x : nat) :
  sound check ->
  construct puzzle = Ok g ->
  Rules.square g ->
  x < size g ->
  (forall m : Model,
      (forall y v, y < size g -> cell_at g x y = Some v -> m (x, y) = v) ->
      sum_upto (size g) (fun y => m (x, y)) <> Z.of_nat (size g / 2)) ->
  solve check g = Raise UnsolvablePuzzleError.
Proof.
  intros Sound C Q Hx Bad.
  destruct (solve_cases check _ _ Sound C Q) as [[m [_ [M _]]] | [_ H]];
    [ exfalso | exact H ].
  destruct M as [V [_ [[S _] _]]].
  apply (Bad m); [ intros y v Hy; now apply V | now apply S ].
Qed.

(** C7: on a constructed square puzzle [solve] raises
    [UnsolvablePuzzleError] exactly when no assignment of 0 and 1 to the
    unknown cells that keeps the given cells obeys the four rules; the
    4x4 puzzle of ones and the puzzle [[1, 1], [1, N]] both raise it, and
    the raised result carries no puzzle. *)
Theorem solve_unsolvable_iff :
  forall check : list BoolRef -> option Model,
    sound check -> complete check ->
    (forall puzzle g,
        construct puzzle = Ok g ->
        Rules.square g ->
        solve check g = Raise UnsolvablePuzzleError <->
        ~ exists g', Rules.completes g g' /\ Rules.obeys g') /\
    (exists g,
        construct ones_puzzle = Ok g /\
        solve check g = Raise UnsolvablePuzzleError) /\
    (exists g,
        construct corner_puzzle = Ok g /\
        solve check g = Raise UnsolvablePuzzleError).
Proof.
  intros check Sound Complete. split; [ | split ].
  - intros puzzle g. now apply unsolvable_iff_no_completion.
  - exists (mkBinaryPuzzle ones_puzzle 4). split; [ reflexivity | ].
    apply (unsolvable_row check ones_puzzle _ 0 Sound eq_refl);
      [ | simpl; lia | ].
    + unfold Rules.square. rewrite rows_puzzle. simpl.
      repeat constructor.
    + intros m V. unfold sum_upto. simpl.
      rewrite (V 0 1%Z), (V 1 1%Z), (V 2 1%Z), (V 3 1%Z);
        try reflexivity; simpl; lia.
  - exists (mkBinaryPuzzle corner_puzzle 2). split; [ reflexivity | ].
    apply (unsolvable_row check corner_puzzle _ 0 Sound eq_refl);
      [ | simpl; lia | ].
    + unfold Rules.square. rewrite rows_puzzle. simpl.
      repeat constructor.
    + intros m V. unfold sum_upto. simpl.
      rewrite (V 0 1%Z), (V 1 1%Z); try reflexivity; simpl; lia.
Qed.

Lemma rows_eqb_refl (l : list (list cell)) : rows_eqb l l = true.
Proof.
  unfold rows_eqb.
  destruct (list_eq_dec (list_eq_dec cell_eq_dec) l l); congruence.
Qed.

Lemma solved_fixed_point (check : list BoolRef -> option Model)
    (puzzle : list (list cell)) (g : BinaryPuzzle) :
  sound check -> complete check ->
  construct puzzle = Ok g ->
  Rules.obeys g ->
  solve check g = Ok g.
Proof.
  intros Sound Complete C O.
  destruct (constructed_size _ _ C) as [_ [P [E _]]].
  destruct O as [F [cols [Hc R]]].
  pose proof (columns_Ok_shaped _ _ _ C Hc) as S.
  pose proof (puzzle_of_model_from g S F) as G.
  assert (V : forall x y, x < size g -> y < size g ->
                          cell_at g x y = Some (model_from g (x, y))).
  { intros x y Hx Hy. rewrite G at 1. now apply cell_at_puzzle_of. }
  assert (M : model_ok g (model_from g)).
  { apply (model_ok_iff g _ S E). rewrite <- G. split.
    - rewrite G at 2. apply completes_puzzle_of; [ exact S | | ].
      + apply fully_assigned_puzzle_of. now rewrite <- G.
      + intros x y v Hx Hy K. rewrite (V x y Hx Hy) in K. congruence.
    - split; [ exact F | ]. exists cols. split; assumption. }
  destruct (solve_cases check _ _ Sound C (proj2 (square_shaped _ _ C) S))
    as [[m [_ [[Vm _] H]]] | [K _]].
  - rewrite H. f_equal. rewrite G. apply puzzle_of_ext.
    intros x y Hx Hy. now apply Vm, V.
  - exfalso.
    apply (Complete puzzle g (asserted g) (model_from g) C);
      [ now apply assertions_shaped | | exact K ].
    now apply (asserted_sem g _ P).
Qed.

(** C9: on a constructed puzzle that has no unknown cell and obeys the
    four rules, [solve] succeeds and the returned puzzle is equal to the
    puzzle under [==], which compares [rows()]; so it is on
    [[0, 1], [1, 0]]. *)
Theorem solve_solved :
  forall check : list BoolRef -> option Model,
    sound check -> complete check ->
    (forall puzzle g,
        construct puzzle = Ok g ->
        Rules.obeys g ->
        exists g',
          solve check g = Ok g' /\
          rows g' = rows g /\
          equals g' (PuzzleObject g) = true) /\
    (exists g g',
        construct solved_puzzle = Ok g /\
        solve check g = Ok g' /\
        equals g' (PuzzleObject g) = true).
Proof.
  intros check Sound Complete.
  assert (A : forall puzzle g,
             construct puzzle = Ok g -> Rules.obeys g ->
             exists g', solve check g = Ok g' /\ rows g' = rows g /\
                        equals g' (PuzzleObject g) = true).
  { intros puzzle g C O. exists g.
    split; [ now apply (solved_fixed_point check puzzle) | ].
    split; [ reflexivity | ]. unfold equals; simpl. apply rows_eqb_refl. }
  split; [ exact A | ].
  exists (mkBinaryPuzzle solved_puzzle 2).
  destruct (A solved_puzzle (mkBinaryPuzzle solved_puzzle 2) eq_refl)
    as [g' [H [_ Q]]].
  2:{ exists g'. split; [ reflexivity | ]. split; assumption. }
  apply (proj1 (model_ok_iff (mkBinaryPuzzle solved_puzzle 2)
                  (fun pos => if (fst pos + snd pos =? 1) then 1%Z else 0%Z)
                  ltac:(split; simpl; repeat constructor) eq_refl)).
  unfold model_ok, lines_ok, sum_upto, cell_at, size. simpl.
  assert (Two : forall i, i < 2 -> i = 0 \/ i = 1) by lia.
  repeat split; intros.
  all: repeat match goal with
              | H : ?i < 2 |- _ => destruct (Two i H); clear H; subst
              end; simpl in *; try lia; try congruence.
  all: try (exists 0; split; [ lia | simpl; lia ]).
Qed.

(** ** The theorems at work on the exhaustive search *)

Lemma solve_keeps_clues_witness :
  construct clue_puzzle = Ok (mkBinaryPuzzle clue_puzzle 2) /\
  solve Search.check (mkBinaryPuzzle clue_puzzle 2)
  = Ok (mkBinaryPuzzle solved_puzzle 2) /\
  puzzle_at (mkBinaryPuzzle solved_puzzle 2) 0 1 = Ok (Some 1%Z).
Proof.
  split; [ reflexivity | ]. split; [ vm_compute; reflexivity | ].
  apply (solve_keeps_clues Search.check clue_puzzle
           (mkBinaryPuzzle clue_puzzle 2) (mkBinaryPuzzle solved_puzzle 2)
           search_sound).
  - reflexivity.
  - vm_compute; reflexivity.
  - reflexivity.
  - discriminate.
Defined.

Lemma solve_balanced_witness :
  size (mkBinaryPuzzle solved_puzzle 2) = size (mkBinaryPuzzle clue_puzzle 2) /\
  exists cols,
    columns (mkBinaryPuzzle solved_puzzle 2) = Ok cols /\
    forall line,
      In line (rows (mkBinaryPuzzle solved_puzzle 2) ++ cols) ->
      Rules.count (Some 0%Z) line = size (mkBinaryPuzzle solved_puzzle 2) / 2 /\
      Rules.count (Some 1%Z) line = size (mkBinaryPuzzle solved_puzzle 2) / 2 /\
      Rules.count N line = 0.
Proof.
  apply (solve_balanced Search.check clue_puzzle
           (mkBinaryPuzzle clue_puzzle 2) (mkBinaryPuzzle solved_puzzle 2)
           search_sound).
  - reflexivity.
  - vm_compute; reflexivity.
Defined.

Lemma solve_no_triple_witness :
  solve Search.check (mkBinaryPuzzle simple_4x4 4)
  = Ok (mkBinaryPuzzle simple_4x4 4) /\
  exists cols,
    columns (mkBinaryPuzzle simple_4x4 4) = Ok cols /\
    forall line,
      In line (rows (mkBinaryPuzzle simple_4x4 4) ++ cols) ->
      ~ Rules.has_triple line.
Proof.
  assert (H : solve Search.check (mkBinaryPuzzle simple_4x4 4)
              = Ok (mkBinaryPuzzle simple_4x4 4))
    by (vm_compute; reflexivity).
  split; [ exact H | ].
  apply (proj1 (solve_no_triple Search.check simple_4x4
                  (mkBinaryPuzzle simple_4x4 4) search_sound eq_refl)).
  - simpl. lia.
  - exact H.
Defined.

Lemma solve_unique_lines_witness :
  Rules.pairwise_distinct (rows (mkBinaryPuzzle solved_puzzle 2)) /\
  exists cols,
    columns (mkBinaryPuzzle solved_puzzle 2) = Ok cols /\
    Rules.pairwise_distinct cols.
Proof.
  apply (solve_unique_lines Search.check clue_puzzle
           (mkBinaryPuzzle clue_puzzle 2) (mkBinaryPuzzle solved_puzzle 2)
           search_sound).
  - reflexivity.
  - vm_compute; reflexivity.
Defined.

Lemma solve_unsolvable_iff_witness :
  sound Search.check /\ complete Search.check /\
  solve Search.check (mkBinaryPuzzle corner_puzzle 2)
  = Raise UnsolvablePuzzleError /\
  ~ exists g',
      Rules.completes (mkBinaryPuzzle corner_puzzle 2) g' /\ Rules.obeys g'.
Proof.
  split; [ exact search_sound | ]. split; [ exact search_complete | ].
  assert (H : solve Search.check (mkBinaryPuzzle corner_puzzle 2)
              = Raise UnsolvablePuzzleError)
    by (vm_compute; reflexivity).
  split; [ exact H | ].
  apply (proj1 (solve_unsolvable_iff Search.check search_sound search_complete)
           corner_puzzle (mkBinaryPuzzle corner_puzzle 2)).
  - reflexivity.
  - unfold Rules.square. rewrite rows_puzzle. simpl. repeat constructor.
  - exact H.
Defined.

Lemma solve_solved_witness :
  sound Search.check /\ complete Search.check /\
  exists g g',
    construct solved_puzzle = Ok g /\
    solve Search.check g = Ok g' /\
    equals g' (PuzzleObject g) = true.
Proof.
  split; [ exact search_sound | ]. split; [ exact search_complete | ].
  exact (proj2 (solve_solved Search.check search_sound search_complete)).
Defined.

(** * Further properties of the class *)

(** ** What construct guarantees *)

(** X1: a constructed puzzle holds the input as its rows, its size is the
    number of rows, which is even and at least 2, it has [size * size]
    cells in total, and every cell is 0, 1 or the unknown marker. *)
Theorem construct_invariants :
  forall (puzzle : list (list cell)) (g : BinaryPuzzle),
    construct puzzle = Ok g ->
    rows g = puzzle /\
    size g = length puzzle /\
    2 <= size g /\
    Nat.Even (size g) /\
    length (concat (rows g)) = size g * size g /\
    (forall row value,
        In row (rows g) -> In value row ->
        value = Some 0%Z \/ value = Some 1%Z \/ value = N).
Proof.
  intros puzzle g C.
  destruct (constructed_size _ _ C) as [_ [P [E T]]].
  apply construct_Ok_inv in C as [-> [_ [_ [_ V]]]].
  rewrite rows_puzzle. unfold size in *. cbn [_size _puzzle] in *.
  pose proof (Nat.div_mod_eq (length puzzle) 2) as D.
  split; [ reflexivity | ]. split; [ reflexivity | ].
  split; [ lia | ]. split; [ exists (length puzzle / 2); lia | ].
  split; [ exact T | ].
  intros row value Hrow Hvalue. apply value_in_spec.
  rewrite forallb_forall in V. specialize (V row Hrow).
  rewrite forallb_forall in V. now apply V.
Qed.

Lemma construct_invariants_witness :
  rows (mkBinaryPuzzle clue_puzzle 2) = clue_puzzle /\
  size (mkBinaryPuzzle clue_puzzle 2) = length clue_puzzle /\
  2 <= size (mkBinaryPuzzle clue_puzzle 2) /\
  Nat.Even (size (mkBinaryPuzzle clue_puzzle 2)) /\
  length (concat (rows (mkBinaryPuzzle clue_puzzle 2)))
  = size (mkBinaryPuzzle clue_puzzle 2) * size (mkBinaryPuzzle clue_puzzle 2) /\
  (forall row value,
      In row (rows (mkBinaryPuzzle clue_puzzle 2)) -> In value row ->
      value = Some 0%Z \/ value = Some 1%Z \/ value = N).
Proof.
  apply (construct_invariants clue_puzzle (mkBinaryPuzzle clue_puzzle 2)).
  reflexivity.
Defined.

(** ** The positions *)

Lemma nth_error_blocks (A : Type) (f : nat -> nat -> A) (n k s i y : nat) :
  i < k -> y < n ->
  nth_error (flat_map (fun x => map (f x) (range n)) (seq s k)) (i * n + y)
  = Some (f (s + i) y).
Proof.
  revert s i. induction k as [ | k IH]; intros s i Hi Hy; [ lia | ].
  simpl. destruct i as [ | i].
  - rewrite nth_error_app1 by (rewrite length_map, length_range; lia).
    simpl. rewrite nth_error_map_range.
    apply Nat.ltb_lt in Hy. rewrite Hy. now rewrite Nat.add_0_r.
  - rewrite nth_error_app2 by (rewrite length_map, length_range; simpl; lia).
    rewrite length_map, length_range.
    replace (S i * n + y - n) with (i * n + y) by (simpl; lia).
    rewrite IH by lia. f_equal. f_equal. lia.
Qed.

Lemma length_blocks (A : Type) (f : nat -> nat -> A) (n : nat) (l : list nat) :
  length (flat_map (fun x => map (f x) (range n)) l) = length l * n.
Proof.
  induction l as [ | x l IH]; simpl; [ reflexivity | ].
  now rewrite length_app, length_map, length_range, IH.
Qed.

(** X2: [positions()] lists the [size * size] coordinates of the grid once
    each, in row-major order: [(x, y)] stands at index [x * size + y]. *)
Theorem positions_row_major :
  forall g : BinaryPuzzle,
    length (positions g) = size g * size g /\
    NoDup (positions g) /\
    (forall x y, In (x, y) (positions g) <-> x < size g /\ y < size g) /\
    (forall x y, x < size g -> y < size g ->
                 nth_error (positions g) (x * size g + y) = Some (x, y)).
Proof.
  intros g.
  assert (L : length (positions g) = size g * size g).
  { unfold positions. now rewrite length_blocks, length_range. }
  assert (I : forall x y,
             x < size g -> y < size g ->
             nth_error (positions g) (x * size g + y) = Some (x, y)).
  { intros x y Hx Hy. unfold positions, range.
    now rewrite (nth_error_blocks _ (fun x y => (x, y))). }
  split; [ exact L | ]. split; [ | split; [ apply In_positions | exact I ] ].
  apply NoDup_nth_error. intros i j Hi E. rewrite L in Hi.
  assert (P : 0 < size g) by (destruct (size g); simpl in Hi; lia).
  assert (Hj : j < size g * size g).
  { rewrite <- L. apply nth_error_Some. rewrite <- E.
    apply nth_error_Some. now rewrite L. }
  pose proof (Nat.div_mod_eq i (size g)) as Di.
  pose proof (Nat.div_mod_eq j (size g)) as Dj.
  pose proof (Nat.mod_upper_bound i (size g) ltac:(lia)) as Mi.
  pose proof (Nat.mod_upper_bound j (size g) ltac:(lia)) as Mj.
  assert (Qi : i / size g < size g) by (apply Nat.Div0.div_lt_upper_bound; lia).
  assert (Qj : j / size g < size g) by (apply Nat.Div0.div_lt_upper_bound; lia).
  rewrite Di, Dj in E.
  rewrite (Nat.mul_comm (size g) (i / size g)) in E.
  rewrite (Nat.mul_comm (size g) (j / size g)) in E.
  rewrite !I in E by assumption.
  injection E as E1 E2. rewrite Di, Dj, E1, E2. reflexivity.
Qed.

(** ** The columns *)

Lemma mapM_Ok_or_Raise (A B : Type) (f : A -> result B) (e : exception)
    (l : list A) :
  (forall a, In a l -> (exists b, f a = Ok b) \/ f a = Raise e) ->
  (exists bs, mapM f l = Ok bs) \/ mapM f l = Raise e.
Proof.
  induction l as [ | a l IH]; simpl; intros H.
  - left. now exists [].
  - destruct (H a (or_introl eq_refl)) as [[b ->] | ->]; simpl;
      [ | now right ].
    destruct IH as [[bs ->] | ->]; simpl.
    + intros; apply H; now right.
    + left. now exists (b :: bs).
    + now right.
Qed.

Lemma columns_shaped (g : BinaryPuzzle) :
  shaped g ->
  columns g
  = Ok (map (fun y => map (fun x => cell_at g x y) (range (size g)))
            (range (size g))).
Proof.
  intros S. unfold columns. cbv zeta.
  apply mapM_map; intros y Hy. apply mapM_map; intros x Hx.
  apply In_range in Hx, Hy. now apply puzzle_at_shaped.
Qed.

Lemma puzzle_cells (g : BinaryPuzzle) :
  shaped g ->
  _puzzle g
  = map (fun x => map (fun y => cell_at g x y) (range (size g)))
        (range (size g)).
Proof.
  intros [L R]. rewrite Forall_forall in R.
  apply nth_error_ext. intros x. rewrite nth_error_map_range.
  destruct (Nat.ltb_spec x (size g)) as [Hx | Hx].
  - destruct (nth_error (_puzzle g) x) as [row | ] eqn:Ex.
    2:{ apply nth_error_None in Ex. lia. }
    f_equal. pose proof (R row (nth_error_In _ _ Ex)) as Hrow.
    apply nth_error_ext. intros y. rewrite nth_error_map_range.
    destruct (Nat.ltb_spec y (size g)) as [Hy | Hy].
    + destruct (nth_error row y) as [c | ] eqn:Ey.
      2:{ apply nth_error_None in Ey. unfold cell in *. lia. }
      f_equal. unfold cell_at.
      rewrite (nth_error_nth _ _ [] Ex). symmetry. now apply nth_error_nth.
    + apply nth_error_None. unfold cell in *. rewrite Hrow. exact Hy.
  - apply nth_error_None. lia.
Qed.

(** X3: on a constructed square puzzle [columns()] returns [size] columns
    of [size] cells, and the cell [x] of column [y] is the cell [y] of
    row [x]. *)
Theorem columns_transpose :
  forall (puzzle : list (list cell)) (g : BinaryPuzzle),
    construct puzzle = Ok g ->
    Rules.square g ->
    exists cols,
      columns g = Ok cols /\
      length cols = size g /\
      Forall (fun col => length col = size g) cols /\
      forall x y,
        x < size g -> y < size g ->
        (col <- getitem cols y ;; getitem col x) = puzzle_at g x y.
Proof.
  intros puzzle g C Q. apply (square_shaped _ _ C) in Q.
  eexists. split; [ now apply columns_shaped | ].
  split; [ now rewrite length_map, length_range | ]. split.
  - apply Forall_forall. intros col H.
    apply in_map_iff in H as [y [<- _]].
    now rewrite length_map, length_range.
  - intros x y Hx Hy. rewrite (puzzle_at_shaped _ _ _ Q Hx Hy).
    unfold getitem. rewrite nth_error_map_range.
    pose proof (proj2 (Nat.ltb_lt _ _) Hx) as Bx.
    pose proof (proj2 (Nat.ltb_lt _ _) Hy) as By.
    rewrite By. simpl. now rewrite nth_error_map_range, Bx.
Qed.

Lemma columns_transpose_witness :
  exists cols,
    columns (mkBinaryPuzzle simple_4x4 4) = Ok cols /\
    length cols = size (mkBinaryPuzzle simple_4x4 4) /\
    Forall (fun col => length col = size (mkBinaryPuzzle simple_4x4 4)) cols /\
    forall x y,
      x < size (mkBinaryPuzzle simple_4x4 4) ->
      y < size (mkBinaryPuzzle simple_4x4 4) ->
      (col <- getitem cols y ;; getitem col x)
      = puzzle_at (mkBinaryPuzzle simple_4x4 4) x y.
Proof.
  apply (columns_transpose simple_4x4 (mkBinaryPuzzle simple_4x4 4)).
  - reflexivity.
  - unfold Rules.square. rewrite rows_puzzle. simpl. repeat constructor.
Defined.

(** X4: on a constructed puzzle [columns()] raises [IndexError] exactly
    when the puzzle is not square, and it raises nothing else. *)
Theorem columns_raises_iff :
  forall (puzzle : list (list cell)) (g : BinaryPuzzle),
    construct puzzle = Ok g ->
    (columns g = Raise IndexError <-> ~ Rules.square g) /\
    (forall e, columns g = Raise e -> e = IndexError).
Proof.
  intros puzzle g C.
  assert (D : (exists cols, columns g = Ok cols) \/
              columns g = Raise IndexError).
  { unfold columns. cbv zeta. apply mapM_Ok_or_Raise. intros y _.
    apply mapM_Ok_or_Raise. intros x _.
    apply puzzle_at_Ok_or_IndexError. }
  split; [ split | ].
  - intros R Q. apply (square_shaped _ _ C) in Q.
    rewrite (columns_shaped g Q) in R. discriminate.
  - intros Q. destruct D as [[cols H] | H]; [ exfalso | exact H ].
    apply Q, (square_shaped _ _ C). now apply (columns_Ok_shaped _ _ _ C H).
  - intros e R. destruct D as [[cols H] | H]; congruence.
Qed.

Lemma columns_raises_iff_witness :
  (columns (mkBinaryPuzzle ragged_puzzle 2) = Raise IndexError <->
   ~ Rules.square (mkBinaryPuzzle ragged_puzzle 2)) /\
  (forall e, columns (mkBinaryPuzzle ragged_puzzle 2) = Raise e ->
             e = IndexError).
Proof.
  apply (columns_raises_iff ragged_puzzle (mkBinaryPuzzle ragged_puzzle 2)).
  reflexivity.
Defined.

Lemma nth_table (A : Type) (f : nat -> nat -> A) (n x y : nat)
    (d : list A) (d' : A) :
  x < n -> y < n ->
  nth y (nth x (map (fun a => map (f a) (range n)) (range n)) d) d' = f x y.
Proof.
  intros Hx Hy.
  assert (Ex : nth_error (map (fun a => map (f a) (range n)) (range n)) x
               = Some (map (f x) (range n))).
  { rewrite nth_error_map_range. apply Nat.ltb_lt in Hx. now rewrite Hx. }
  rewrite (nth_error_nth _ _ d Ex). apply nth_error_nth.
  rewrite nth_error_map_range. apply Nat.ltb_lt in Hy. now rewrite Hy.
Qed.

Lemma cell_at_valid (puzzle : list (list cell)) (g : BinaryPuzzle) (x y : nat) :
  construct puzzle = Ok g -> value_in (cell_at g x y) = true.
Proof.
  intros C. apply construct_Ok_inv in C as [-> [_ [_ [_ V]]]].
  unfold cell_at. simpl.
  destruct (Nat.lt_ge_cases x (length puzzle)) as [Hx | Hx].
  - rewrite forallb_forall in V.
    specialize (V (nth x puzzle []) (nth_In _ _ Hx)).
    rewrite forallb_forall in V.
    destruct (Nat.lt_ge_cases y (length (nth x puzzle []))) as [Hy | Hy].
    + apply V. now apply nth_In.
    + now rewrite nth_overflow.
  - rewrite (nth_overflow puzzle [] Hx). now destruct y.
Qed.

Lemma columns_constructed (puzzle : list (list cell)) (g : BinaryPuzzle)
    (cols : list (list cell)) :
  construct puzzle = Ok g ->
  columns g = Ok cols ->
  construct cols = Ok (mkBinaryPuzzle cols (size g)) /\
  shaped (mkBinaryPuzzle cols (size g)) /\
  (forall x y, x < size g -> y < size g ->
               cell_at (mkBinaryPuzzle cols (size g)) x y = cell_at g y x).
Proof.
  intros C H.
  pose proof (columns_Ok_shaped _ _ _ C H) as S.
  destruct (constructed_size _ _ C) as [_ [P [E _]]].
  rewrite (columns_shaped g S) in H. injection H as <-.
  set (n := size g) in *.
  set (cols := map (fun y => map (fun x => cell_at g x y) (range n)) (range n)).
  assert (L : length cols = n)
    by (unfold cols; now rewrite length_map, length_range).
  assert (R : Forall (fun col => length col = n) cols).
  { apply Forall_forall. intros col K. apply in_map_iff in K as [y [<- _]].
    now rewrite length_map, length_range. }
  split; [ | split; [ split; assumption | ] ].
  - replace (mkBinaryPuzzle cols n)
      with (mkBinaryPuzzle cols (length cols)) by now rewrite L.
    apply construct_Ok.
    + rewrite L. lia.
    + rewrite (length_concat_uniform _ _ n R), L, Nat.pow_2_r. reflexivity.
    + now rewrite L.
    + apply forallb_forall. intros col K. apply in_map_iff in K as [y [<- _]].
      apply forallb_forall. intros value K.
      apply in_map_iff in K as [x [<- _]]. now apply (cell_at_valid puzzle).
  - intros x y Hx Hy. unfold cell_at at 1. simpl. unfold cols.
    now rewrite (nth_table _ (fun y x => cell_at g x y)).
Qed.

(** X5: the columns of a constructed puzzle are themselves accepted by
    [construct], and the columns of that puzzle are the rows of the first:
    transposing twice gives the puzzle back. *)
Theorem columns_involutive :
  forall (puzzle : list (list cell)) (g : BinaryPuzzle)
         (cols : list (list cell)),
    construct puzzle = Ok g ->
    columns g = Ok cols ->
    exists g',
      construct cols = Ok g' /\
      size g' = size g /\
      rows g' = cols /\
      columns g' = Ok (rows g).
Proof.
  intros puzzle g cols C H.
  pose proof (columns_Ok_shaped _ _ _ C H) as S.
  destruct (columns_constructed _ _ _ C H) as [C' [S' T]].
  exists (mkBinaryPuzzle cols (size g)).
  split; [ exact C' | ]. split; [ reflexivity | ].
  split; [ apply rows_puzzle | ].
  rewrite (columns_shaped _ S'), rows_puzzle, (puzzle_cells g S).
  change (size (mkBinaryPuzzle cols (size g))) with (size g). f_equal.
  apply map_ext_in. intros x Hx. apply map_ext_in. intros y Hy.
  apply In_range in Hx, Hy. now apply T.
Qed.

Lemma columns_involutive_witness :
  exists g',
    construct [[Some 0; Some 0]; [Some 1; Some 1]]%Z = Ok g' /\
    size g' = size (mkBinaryPuzzle [[Some 0; Some 1]; [Some 0; Some 1]]%Z 2) /\
    rows g' = [[Some 0; Some 0]; [Some 1; Some 1]]%Z /\
    columns g'
    = Ok (rows (mkBinaryPuzzle [[Some 0; Some 1]; [Some 0; Some 1]]%Z 2)).
Proof.
  apply (columns_involutive [[Some 0; Some 1]; [Some 0; Some 1]]%Z
           (mkBinaryPuzzle [[Some 0; Some 1]; [Some 0; Some 1]]%Z 2)).
  - reflexivity.
  - reflexivity.
Defined.

Lemma map_flat_map (A B C : Type) (h : B -> C) (k : A -> list B) (l : list A) :
  map h (flat_map k l) = flat_map (fun a => map h (k a)) l.
Proof.
  induction l as [ | a l IH]; simpl; [ reflexivity | ].
  now rewrite map_app, IH.
Qed.

(** X6: on a constructed square puzzle, reading [self._puzzle[x][y]] at the
    positions in their order never fails and yields the cells of the rows
    one row after the other. *)
Theorem positions_read_rows :
  forall (puzzle : list (list cell)) (g : BinaryPuzzle),
    construct puzzle = Ok g ->
    Rules.square g ->
    mapM (fun pos => puzzle_at g (fst pos) (snd pos)) (positions g)
    = Ok (concat (rows g)).
Proof.
  intros puzzle g C Q. apply (square_shaped _ _ C) in Q.
  rewrite (mapM_map _ _ _ (fun pos => cell_at g (fst pos) (snd pos))).
  - f_equal. unfold positions. cbv zeta. rewrite map_flat_map.
    rewrite rows_puzzle, (puzzle_cells g Q) at 1.
    rewrite flat_map_concat_map. f_equal.
    apply map_ext. intros x. now rewrite map_map.
  - intros [x y] H. apply In_positions in H as [Hx Hy].
    simpl. now apply puzzle_at_shaped.
Qed.

Lemma positions_read_rows_witness :
  mapM (fun pos => puzzle_at (mkBinaryPuzzle clue_puzzle 2) (fst pos) (snd pos))
       (positions (mkBinaryPuzzle clue_puzzle 2))
  = Ok (concat (rows (mkBinaryPuzzle clue_puzzle 2))).
Proof.
  apply (positions_read_rows clue_puzzle (mkBinaryPuzzle clue_puzzle 2)).
  - reflexivity.
  - unfold Rules.square. rewrite rows_puzzle. simpl. repeat constructor.
Defined.

(** ** More on solve *)

(** X7: on a constructed puzzle [solve] raises [IndexError] exactly when
    the puzzle is not square, and the only other exception it can raise
    is [UnsolvablePuzzleError]. *)
Theorem solve_raises :
  forall (check : list BoolRef -> option Model)
         (puzzle : list (list cell)) (g : BinaryPuzzle),
    sound check ->
    construct puzzle = Ok g ->
    (solve check g = Raise IndexError <-> ~ Rules.square g) /\
    (forall e, solve check g = Raise e ->
               e = IndexError \/ e = UnsolvablePuzzleError).
Proof.
  intros check puzzle g Sound C.
  destruct (assertions_Ok_or_IndexError g) as [[solver A] | A].
  - pose proof (assertions_Ok_shaped _ _ _ C A) as S.
    pose proof (proj2 (square_shaped _ _ C) S) as Q.
    destruct (solve_cases check _ _ Sound C Q) as [[m [_ [_ H]]] | [_ H]];
      rewrite H; (split; [ split | ]).
    + discriminate.
    + intros NQ. contradiction.
    + discriminate.
    + discriminate.
    + intros NQ. contradiction.
    + intros e [= <-]. now right.
  - assert (H : solve check g = Raise IndexError)
      by (unfold solve; now rewrite A).
    rewrite H. split; [ split | ].
    + intros _ Q. apply (square_shaped _ _ C) in Q.
      rewrite (assertions_shaped g Q) in A. discriminate.
    + reflexivity.
    + intros e [= <-]. now left.
Qed.

Lemma solve_raises_witness :
  (solve Search.check (mkBinaryPuzzle ragged_puzzle 2) = Raise IndexError <->
   ~ Rules.square (mkBinaryPuzzle ragged_puzzle 2)) /\
  (forall e, solve Search.check (mkBinaryPuzzle ragged_puzzle 2) = Raise e ->
             e = IndexError \/ e = UnsolvablePuzzleError).
Proof.
  apply (solve_raises Search.check ragged_puzzle
           (mkBinaryPuzzle ragged_puzzle 2) search_sound).
  reflexivity.
Defined.

Lemma solve_Ok_construct (check : list BoolRef -> option Model)
    (puzzle : list (list cell)) (g g' : BinaryPuzzle) :
  sound check ->
  construct puzzle = Ok g ->
  solve check g = Ok g' ->
  construct (rows g') = Ok g'.
Proof.
  intros Sound C H.
  destruct (constructed_size _ _ C) as [_ [P [E _]]].
  destruct (solve_Ok_inv _ _ _ _ Sound C H) as [S [m [_ [[_ [D _]] ->]]]].
  rewrite rows_puzzle. simpl. now apply construct_puzzle_of.
Qed.

(** X8: when z3 answers [sat] with a model on the assertions of a
    constructed puzzle, the final [BinaryPuzzle(...)] call accepts what is
    read off the model: [solve] returns a square puzzle of the size of the
    input whose cell [(x, y)] is the value of the constant [(x, y)] in the
    model. *)
Theorem solve_reads_model :
  forall (check : list BoolRef -> option Model)
         (puzzle : list (list cell)) (g : BinaryPuzzle)
         (solver : list BoolRef) (m : Model),
    sound check ->
    construct puzzle = Ok g ->
    assertions g = Ok solver ->
    check solver = Some m ->
    exists g',
      solve check g = Ok g' /\
      size g' = size g /\
      Rules.square g' /\
      (forall x y, x < size g -> y < size g ->
                   puzzle_at g' x y = Ok (Some (m (x, y)))).
Proof.
  intros check puzzle g solver m Sound C A K.
  destruct (constructed_size _ _ C) as [_ [P [E _]]].
  pose proof (assertions_Ok_shaped _ _ _ C A) as S.
  pose proof (Sound _ _ K) as Sat.
  pose proof A as A'. rewrite (assertions_shaped g S) in A'.
  injection A' as <-.
  apply (asserted_sem g m P) in Sat.
  exists (puzzle_of m (size g)). split; [ | split; [ reflexivity | split ] ].
  - unfold solve. rewrite A. simpl. rewrite K.
    now apply read_model_ok.
  - unfold Rules.square. rewrite rows_puzzle.
    apply (shaped_puzzle_of m (size g)).
  - intros x y Hx Hy. now apply puzzle_at_puzzle_of.
Qed.

Lemma solve_reads_model_witness :
  exists (m : Model) (g' : BinaryPuzzle),
    solve Search.check (mkBinaryPuzzle clue_puzzle 2) = Ok g' /\
    size g' = size (mkBinaryPuzzle clue_puzzle 2) /\
    Rules.square g' /\
    (forall x y, x < size (mkBinaryPuzzle clue_puzzle 2) ->
                 y < size (mkBinaryPuzzle clue_puzzle 2) ->
                 puzzle_at g' x y = Ok (Some (m (x, y)))).
Proof.
  eexists.
  eapply (solve_reads_model Search.check clue_puzzle
            (mkBinaryPuzzle clue_puzzle 2) _ _ search_sound).
  - reflexivity.
  - vm_compute; reflexivity.
  - vm_compute; reflexivity.
Defined.

(** X9: solving the puzzle that [solve] returned returns it again. *)
Theorem solve_idempotent :
  forall (check : list BoolRef -> option Model)
         (puzzle : list (list cell)) (g g' : BinaryPuzzle),
    sound check -> complete check ->
    construct puzzle = Ok g ->
    solve check g = Ok g' ->
    solve check g' = Ok g'.
Proof.
  intros check puzzle g g' Sound Complete C H.
  pose proof (solve_Ok_construct _ _ _ _ Sound C H) as C'.
  destruct (solve_Ok_obeys _ _ _ _ Sound C H) as [_ [_ O]].
  now apply (solved_fixed_point check (rows g')).
Qed.

Lemma solve_idempotent_witness :
  solve Search.check (mkBinaryPuzzle clue_puzzle 2)
  = Ok (mkBinaryPuzzle solved_puzzle 2) /\
  solve Search.check (mkBinaryPuzzle solved_puzzle 2)
  = Ok (mkBinaryPuzzle solved_puzzle 2).
Proof.
  assert (H : solve Search.check (mkBinaryPuzzle clue_puzzle 2)
              = Ok (mkBinaryPuzzle solved_puzzle 2))
    by (vm_compute; reflexivity).
  split; [ exact H | ].
  apply (solve_idempotent Search.check clue_puzzle
           (mkBinaryPuzzle clue_puzzle 2) (mkBinaryPuzzle solved_puzzle 2)
           search_sound search_complete).
  - reflexivity.
  - exact H.
Defined.

Lemma completes_full (g g' : BinaryPuzzle) :
  shaped g -> Rules.fully_assigned g -> Rules.completes g g' -> g' = g.
Proof.
  intros S F K.
  pose proof (completes_shaped _ _ S K) as S'.
  destruct K as [Z [_ K]].
  pose proof (puzzle_of_model_from g S F) as G.
  assert (E : _puzzle g' = _puzzle g).
  { rewrite (puzzle_cells g' S'), (puzzle_cells g S), Z.
    apply map_ext_in. intros x Hx. apply map_ext_in. intros y Hy.
    apply In_range in Hx, Hy.
    assert (V : cell_at g x y = Some (model_from g (x, y))).
    { rewrite G at 1. now apply cell_at_puzzle_of. }
    specialize (K x y (cell_at g x y) (puzzle_at_shaped _ _ _ S Hx Hy)).
    rewrite V in K. rewrite V.
    rewrite puzzle_at_shaped in K by (try assumption; now rewrite Z).
    congruence. }
  destruct g as [p n], g' as [p' n']. unfold size in Z. simpl in *.
  now subst.
Qed.

(** X10: on a constructed square puzzle without unknown cells [solve]
    checks the rules: it returns the puzzle when the puzzle obeys them and
    raises [UnsolvablePuzzleError] when it does not. *)
Theorem solve_full_grid :
  forall (check : list BoolRef -> option Model)
         (puzzle : list (list cell)) (g : BinaryPuzzle),
    sound check -> complete check ->
    construct puzzle = Ok g ->
    Rules.square g ->
    Rules.fully_assigned g ->
    (Rules.obeys g -> solve check g = Ok g) /\
    (~ Rules.obeys g -> solve check g = Raise UnsolvablePuzzleError).
Proof.
  intros check puzzle g Sound Complete C Q F. split.
  - intros O. now apply (solved_fixed_point check puzzle).
  - intros NO.
    apply (unsolvable_iff_no_completion check puzzle g Sound Complete C Q).
    intros [g' [K O]]. apply NO.
    apply (square_shaped _ _ C) in Q.
    now rewrite <- (completes_full g g' Q F K).
Qed.

Lemma solve_full_grid_witness :
  (Rules.obeys (mkBinaryPuzzle ones_puzzle 4) ->
   solve Search.check (mkBinaryPuzzle ones_puzzle 4)
   = Ok (mkBinaryPuzzle ones_puzzle 4)) /\
  (~ Rules.obeys (mkBinaryPuzzle ones_puzzle 4) ->
   solve Search.check (mkBinaryPuzzle ones_puzzle 4)
   = Raise UnsolvablePuzzleError).
Proof.
  apply (solve_full_grid Search.check ones_puzzle
           (mkBinaryPuzzle ones_puzzle 4) search_sound search_complete).
  - reflexivity.
  - unfold Rules.square. rewrite rows_puzzle. simpl. repeat constructor.
  - unfold Rules.fully_assigned. rewrite rows_puzzle. simpl.
    repeat constructor; now right.
Defined.

Lemma solve_completion (check : list BoolRef -> option Model)
    (puzzle : list (list cell)) (g g0 : BinaryPuzzle) :
  sound check -> complete check ->
  construct puzzle = Ok g ->
  Rules.square g ->
  Rules.completes g g0 ->
  Rules.obeys g0 ->
  exists g',
    solve check g = Ok g' /\ Rules.completes g g' /\ Rules.obeys g'.
Proof.
  intros Sound Complete C Q K O.
  destruct (constructed_size _ _ C) as [_ [_ [E _]]].
  pose proof (proj1 (square_shaped _ _ C) Q) as S.
  destruct (solve_cases check _ _ Sound C Q) as [[m [_ [M H]]] | [_ H]].
  - exists (puzzle_of m (size g)). split; [ exact H | ].
    now apply model_ok_iff.
  - exfalso.
    apply (proj1 (unsolvable_iff_no_completion check puzzle g
                    Sound Complete C Q) H).
    now exists g0.
Qed.

(** X11: when some assignment of 0 and 1 to the unknown cells of a
    constructed square puzzle obeys the rules, [solve] succeeds and returns
    such an assignment. *)
Theorem solve_finds_completion :
  forall (check : list BoolRef -> option Model)
         (puzzle : list (list cell)) (g g0 : BinaryPuzzle),
    sound check -> complete check ->
    construct puzzle = Ok g ->
    Rules.square g ->
    Rules.completes g g0 ->
    Rules.obeys g0 ->
    exists g',
      solve check g = Ok g' /\ Rules.completes g g' /\ Rules.obeys g'.
Proof.
  intros check puzzle g g0 Sound Complete C Q K O.
  destruct (constructed_size _ _ C) as [_ [_ [E _]]].
  pose proof (proj1 (square_shaped _ _ C) Q) as S.
  destruct (solve_cases check _ _ Sound C Q) as [[m [_ [M H]]] | [_ H]].
  - exists (puzzle_of m (size g)). split; [ exact H | ].
    now apply model_ok_iff.
  - exfalso.
    apply (proj1 (unsolvable_iff_no_completion check puzzle g
                    Sound Complete C Q) H).
    now exists g0.
Qed.

(** X12: when a constructed square puzzle has exactly one solution,
    [solve] returns a puzzle with the rows of that solution, whatever z3
    does. *)
Theorem solve_unique_solution :
  forall (check : list BoolRef -> option Model)
         (puzzle : list (list cell)) (g g0 : BinaryPuzzle),
    sound check -> complete check ->
    construct puzzle = Ok g ->
    Rules.square g ->
    Rules.completes g g0 ->
    Rules.obeys g0 ->
    (forall g1, Rules.completes g g1 -> Rules.obeys g1 ->
                rows g1 = rows g0) ->
    exists g',
      solve check g = Ok g' /\
      rows g' = rows g0 /\
      equals g' (PuzzleObject g0) = true.
Proof.
  intros check puzzle g g0 Sound Complete C Q K O U.
  destruct (solve_completion check puzzle g g0 Sound Complete C Q K O)
    as [g' [H [K' O']]].
  exists g'. split; [ exact H | ].
  pose proof (U g' K' O') as R. split; [ exact R | ].
  unfold equals. simpl. rewrite R. apply rows_eqb_refl.
Qed.

Lemma solve_finds_completion_witness :
  exists g',
    solve Search.check (mkBinaryPuzzle clue_puzzle 2) = Ok g' /\
    Rules.completes (mkBinaryPuzzle clue_puzzle 2) g' /\
    Rules.obeys g'.
Proof.
  assert (H : solve Search.check (mkBinaryPuzzle clue_puzzle 2)
              = Ok (mkBinaryPuzzle solved_puzzle 2))
    by (vm_compute; reflexivity).
  destruct (solve_Ok_obeys Search.check clue_puzzle _ _ search_sound eq_refl H)
    as [_ [K O]].
  apply (solve_finds_completion Search.check clue_puzzle
           (mkBinaryPuzzle clue_puzzle 2) (mkBinaryPuzzle solved_puzzle 2)
           search_sound search_complete).
  - reflexivity.
  - unfold Rules.square. rewrite rows_puzzle. simpl. repeat constructor.
  - exact K.
  - exact O.
Defined.

Lemma solve_unique_solution_witness :
  exists g',
    solve Search.check (mkBinaryPuzzle solved_puzzle 2) = Ok g' /\
    rows g' = rows (mkBinaryPuzzle solved_puzzle 2) /\
    equals g' (PuzzleObject (mkBinaryPuzzle solved_puzzle 2)) = true.
Proof.
  assert (H : solve Search.check (mkBinaryPuzzle solved_puzzle 2)
              = Ok (mkBinaryPuzzle solved_puzzle 2))
    by (vm_compute; reflexivity).
  destruct (solve_Ok_obeys Search.check solved_puzzle _ _
              search_sound eq_refl H) as [_ [K O]].
  assert (S : shaped (mkBinaryPuzzle solved_puzzle 2))
    by (split; simpl; repeat constructor).
  apply (solve_unique_solution Search.check solved_puzzle
           (mkBinaryPuzzle solved_puzzle 2) (mkBinaryPuzzle solved_puzzle 2)
           search_sound search_complete).
  - reflexivity.
  - unfold Rules.square. rewrite rows_puzzle. simpl. repeat constructor.
  - exact K.
  - exact O.
  - intros g1 K1 _. f_equal.
    apply (completes_full _ g1 S (proj1 O) K1).
Defined.

(** ** Equality of puzzles *)

Lemma rows_eqb_eq (a b : list (list cell)) : rows_eqb a b = true <-> a = b.
Proof.
  unfold rows_eqb.
  destruct (list_eq_dec (list_eq_dec cell_eq_dec) a b); split;
    congruence.
Qed.

(** X13: two constructed puzzles are equal under [==] exactly when they
    were constructed from equal inputs, and [==] gives the same answer
    with the operands swapped. *)
Theorem equals_constructed :
  forall (puzzle puzzle' : list (list cell)) (g g' : BinaryPuzzle),
    construct puzzle = Ok g ->
    construct puzzle' = Ok g' ->
    (equals g (PuzzleObject g') = true <-> puzzle = puzzle') /\
    (equals g (PuzzleObject g') = true <-> g = g') /\
    equals g (PuzzleObject g') = equals g' (PuzzleObject g).
Proof.
  intros puzzle puzzle' g g' C C'.
  apply construct_Ok_inv in C as [-> _].
  apply construct_Ok_inv in C' as [-> _].
  unfold equals. simpl. rewrite !rows_puzzle. simpl.
  split; [ apply rows_eqb_eq | ]. split.
  - rewrite rows_eqb_eq. split; [ intros ->; reflexivity | ].
    now intros [= ->].
  - destruct (rows_eqb puzzle puzzle') eqn:E.
    + apply rows_eqb_eq in E. subst. symmetry. now apply rows_eqb_eq.
    + destruct (rows_eqb puzzle' puzzle) eqn:E'; [ | reflexivity ].
      apply rows_eqb_eq in E'. subst.
      rewrite (proj2 (rows_eqb_eq puzzle puzzle) eq_refl) in E. discriminate.
Qed.

Lemma equals_constructed_witness :
  (equals (mkBinaryPuzzle clue_puzzle 2)
          (PuzzleObject (mkBinaryPuzzle solved_puzzle 2)) = true
   <-> clue_puzzle = solved_puzzle) /\
  (equals (mkBinaryPuzzle clue_puzzle 2)
          (PuzzleObject (mkBinaryPuzzle solved_puzzle 2)) = true
   <-> mkBinaryPuzzle clue_puzzle 2 = mkBinaryPuzzle solved_puzzle 2) /\
  equals (mkBinaryPuzzle clue_puzzle 2)
         (PuzzleObject (mkBinaryPuzzle solved_puzzle 2))
  = equals (mkBinaryPuzzle solved_puzzle 2)
           (PuzzleObject (mkBinaryPuzzle clue_puzzle 2)).
Proof.
  apply (equals_constructed clue_puzzle solved_puzzle).
  - reflexivity.
  - reflexivity.
Defined.

(** ** The pairs of lines that the uniqueness assertions compare *)

(** X14: the disjuncts of the uniqueness assertion on the rows are the
    conjunctions [And([Int(x, y) == Int(x', y) for y])] for the ordered
    pairs of different rows [x], [x']; no row is compared with itself.
    The same holds for the columns. *)
Theorem unique_pairs_distinct :
  forall (n : nat) (c : BoolRef),
    0 < n ->
    (In c (equal_pairs (row_symbols n)) <->
     exists x x',
       x < n /\ x' < n /\ x <> x' /\
       c = And (map (fun y => Eq (Int (x, y)) (Int (x', y))) (range n))) /\
    (In c (equal_pairs (column_symbols n)) <->
     exists y y',
       y < n /\ y' < n /\ y <> y' /\
       c = And (map (fun x => Eq (Int (x, y)) (Int (x, y'))) (range n))).
Proof.
  intros n c P. unfold row_symbols, column_symbols. split.
  - rewrite (In_equal_pairs (fun x y => (x, y)) n P)
      by (intros a a' [= ->]; reflexivity).
    unfold symbol_line.
    split; intros [x [x' [Hx [Hx' [D ->]]]]]; exists x, x';
      repeat (split; [ assumption | ]);
      now rewrite combine_map_same, map_map.
  - rewrite (In_equal_pairs (fun y x => (x, y)) n P)
      by (intros a a' [= ->]; reflexivity).
    unfold symbol_line.
    split; intros [y [y' [Hy [Hy' [D ->]]]]]; exists y, y';
      repeat (split; [ assumption | ]);
      now rewrite combine_map_same, map_map.
Qed.

Lemma unique_pairs_distinct_witness :
  (In (And [Eq (Int (0, 0)) (Int (0, 0)); Eq (Int (0, 1)) (Int (0, 1))])
      (equal_pairs (row_symbols 2)) <->
   exists x x',
     x < 2 /\ x' < 2 /\ x <> x' /\
     And [Eq (Int (0, 0)) (Int (0, 0)); Eq (Int (0, 1)) (Int (0, 1))]
     = And (map (fun y => Eq (Int (x, y)) (Int (x', y))) (range 2))) /\
  (In (And [Eq (Int (0, 0)) (Int (0, 0)); Eq (Int (0, 1)) (Int (0, 1))])
      (equal_pairs (column_symbols 2)) <->
   exists y y',
     y < 2 /\ y' < 2 /\ y <> y' /\
     And [Eq (Int (0, 0)) (Int (0, 0)); Eq (Int (0, 1)) (Int (0, 1))]
     = And (map (fun x => Eq (Int (x, y)) (Int (x, y'))) (range 2))).
Proof.
  apply (unique_pairs_distinct 2). lia.
Defined.

(** ** Solving the transposed puzzle *)

Lemma model_ok_swap (g h : BinaryPuzzle) (m : Model) :
  size h = size g ->
  (forall x y, x < size g -> y < size g -> cell_at h x y = cell_at g y x) ->
  model_ok g m ->
  model_ok h (fun pos => m (snd pos, fst pos)).
Proof.
  intros Z T [V [D [LR LC]]]. unfold model_ok. rewrite Z. cbv zeta.
  split; [ | split; [ | split ] ].
  - intros x y v Hx Hy K. simpl. apply V; try assumption.
    now rewrite <- (T x y Hx Hy).
  - intros x y Hx Hy. simpl. now apply D.
  - exact LC.
  - exact LR.
Qed.

Lemma unsolvable_iff_no_model (check : list BoolRef -> option Model)
    (puzzle : list (list cell)) (g : BinaryPuzzle) :
  sound check -> complete check ->
  construct puzzle = Ok g ->
  shaped g ->
  solve check g = Raise UnsolvablePuzzleError <-> forall m, ~ model_ok g m.
Proof.
  intros Sound Complete C S.
  destruct (constructed_size _ _ C) as [_ [P _]].
  destruct (solve_cases check _ _ Sound C (proj2 (square_shaped _ _ C) S))
    as [[m [_ [M H]]] | [K H]].
  - rewrite H. split; [ discriminate | ]. intros No. now elim (No m).
  - split; [ | intros _; exact H ]. intros _ m M.
    apply (Complete puzzle g (asserted g) m C);
      [ now apply assertions_shaped | | exact K ].
    now apply (asserted_sem g m P).
Qed.

(** X15: transposing a constructed puzzle does not change whether it can
    be solved: [solve] raises [UnsolvablePuzzleError] on the puzzle
    constructed from the columns exactly when it does on the puzzle. *)
Theorem solve_transposed :
  forall (check : list BoolRef -> option Model)
         (puzzle : list (list cell)) (g : BinaryPuzzle)
         (cols : list (list cell)),
    sound check -> complete check ->
    construct puzzle = Ok g ->
    columns g = Ok cols ->
    exists g',
      construct cols = Ok g' /\
      (solve check g' = Raise UnsolvablePuzzleError <->
       solve check g = Raise UnsolvablePuzzleError).
Proof.
  intros check puzzle g cols Sound Complete C H.
  pose proof (columns_Ok_shaped _ _ _ C H) as S.
  destruct (columns_constructed _ _ _ C H) as [C' [S' T]].
  exists (mkBinaryPuzzle cols (size g)). split; [ exact C' | ].
  rewrite (unsolvable_iff_no_model check cols _ Sound Complete C' S').
  rewrite (unsolvable_iff_no_model check puzzle g Sound Complete C S).
  split; intros No m M.
  - apply (No (fun pos => m (snd pos, fst pos))).
    now apply (model_ok_swap g).
  - apply (No (fun pos => m (snd pos, fst pos))).
    apply (model_ok_swap (mkBinaryPuzzle cols (size g)) g);
      [ reflexivity | | exact M ].
    intros x y Hx Hy. symmetry. now apply T.
Qed.

Lemma solve_transposed_witness :
  exists g',
    construct [[N; N]; [Some 1%Z; N]] = Ok g' /\
    (solve Search.check g' = Raise UnsolvablePuzzleError <->
     solve Search.check (mkBinaryPuzzle clue_puzzle 2)
     = Raise UnsolvablePuzzleError).
Proof.
  apply (solve_transposed Search.check clue_puzzle
           (mkBinaryPuzzle clue_puzzle 2) _ search_sound search_complete).
  - reflexivity.
  - reflexivity.
Defined.
